(** * zephymap: the IMAP polling engine of [emailhandler.py]

    A shallow embedding of [EmailHandler] (src/emailhandler.py) and the
    properties of its incremental-check engine: per-folder high-water marks
    ([last_uid]), folder discovery and filtering ([get_folders]), mark
    initialisation ([set_last_uids]), the polling loop and its recovery path
    ([check]) and the GSSAPI callback ([gssauth]).

    The program is Python 2.  Its strings are byte strings, modelled as
    [string] (lists of 8-bit [ascii]); its integers are unbounded, modelled
    as [Z]; the dictionary [self.last_uid] is a [gmap string Z].  Everything
    the program does not implement itself (the [imaplib] session, the
    [kerberos] library, user-supplied regular expressions, base64) is an
    environment the definitions are parameterised over; every method is a
    state-and-exception computation over the handler object and that
    environment, and a ghost trace records each call made to the outside. *)

From Stdlib Require Import ZArith Ascii String List Lia Bool.
From stdpp Require Import base option list strings gmap pretty.

Local Open Scope Z_scope.
Local Open Scope string_scope.
Local Open Scope list_scope.

(** ** Python string operations used by the program *)

Module Py.

(** The characters the source names. *)
Definition dquote : ascii := "034"%char.
Definition newline : ascii := "010"%char.

Definition chars (s : string) : list ascii := list_ascii_of_string s.
Definition str (l : list ascii) : string := string_of_list_ascii l.

Definition ascii_eqb (a b : ascii) : bool := Ascii.eqb a b.

(** [starts_with p s]: the list [p] is a prefix of [s]. *)
Fixpoint starts_with (p s : list ascii) : bool :=
  match p, s with
  | [], _ => true
  | a :: p', b :: s' => ascii_eqb a b && starts_with p' s'
  | _ :: _, [] => false
  end.

(** [needle in hay] on strings. *)
Fixpoint contains_chars (needle hay : list ascii) : bool :=
  starts_with needle hay ||
  match hay with
  | [] => false
  | _ :: hay' => contains_chars needle hay'
  end.

Definition contains (needle hay : string) : bool :=
  contains_chars (chars needle) (chars hay).

(** [s.strip(c)] for a one-character argument: every leading and every
    trailing occurrence of [c] is removed. *)
Fixpoint lstrip_chars (c : ascii) (s : list ascii) : list ascii :=
  match s with
  | a :: s' => if ascii_eqb a c then lstrip_chars c s' else s
  | [] => []
  end.

Definition strip_chars (c : ascii) (s : list ascii) : list ascii :=
  rev (lstrip_chars c (rev (lstrip_chars c s))).

(** [s.replace(old, new)]: non-overlapping occurrences of [old], found left
    to right, are replaced.  [skip] counts the characters of an occurrence
    still to be dropped.  With an empty [old] Python inserts [new] before
    every character and at the end. *)
Fixpoint replace_from (old new : list ascii) (skip : nat) (s : list ascii)
  : list ascii :=
  match s with
  | [] => []
  | a :: s' =>
      match skip with
      | S k => replace_from old new k s'
      | O =>
          if starts_with old s
          then new ++ replace_from old new (Nat.pred (List.length old)) s'
          else a :: replace_from old new O s'
      end
  end.

Definition replace_chars (old new s : list ascii) : list ascii :=
  match old with
  | [] => new ++ flat_map (fun a => a :: new) s
  | _ :: _ => replace_from old new O s
  end.

(** [s[i]] on a string: the one-character string at index [i]. *)
Definition str_index (s : string) (i : nat) : option string :=
  match nth_error (chars s) i with
  | Some a => Some (String a EmptyString)
  | None => None
  end.

(** [int(s)] on a string of decimal digits. *)
Definition digit_val (a : ascii) : Z := Z.of_nat (nat_of_ascii a) - 48.

Definition int_of_digits (l : list ascii) : Z :=
  fold_left (fun acc a => 10 * acc + digit_val a) l 0.

(** The format [%d] applied to [n]. *)
Definition fmt_d (n : Z) : string := pretty n.

End Py.

(** ** The fragment of Python's [re] the program's fixed patterns use

    Patterns are sequences of: one character of a class, a greedy or lazy
    star of a class, the anchors [^] and [$], and the parentheses of a
    capturing group.  The matcher is the backtracking matcher of [re]: at
    a star the greedy form tries the longer match first, the lazy form the
    shorter one, and the first complete match in that order is returned with
    its groups. *)

Module Re.

Inductive cls : Type :=
| Chr (a : ascii)     (* a literal character *)
| Dot                 (* [.]: any character but a newline *)
| Digit.              (* [\d]: 0-9 *)

Inductive node : Type :=
| One (k : cls)
| Star (k : cls)      (* k*  *)
| Lazy (k : cls)      (* k*? *)
| Bol                 (* ^ *)
| Eol                 (* $ *)
| Open                (* ( *)
| Close.              (* ) *)

Definition regex := list node.

Definition is_upper (a : ascii) : bool :=
  let n := nat_of_ascii a in (65 <=? n)%nat && (n <=? 90)%nat.

Definition lower (a : ascii) : ascii :=
  if is_upper a then ascii_of_nat (nat_of_ascii a + 32) else a.

Definition is_digit (a : ascii) : bool :=
  let n := nat_of_ascii a in (48 <=? n)%nat && (n <=? 57)%nat.

(** [accepts ci k a]: character [a] belongs to class [k]; [ci] is the flag
    [re.I]. *)
Definition accepts (ci : bool) (k : cls) (a : ascii) : bool :=
  match k with
  | Chr b => if ci then Py.ascii_eqb (lower a) (lower b) else Py.ascii_eqb a b
  | Dot => negb (Py.ascii_eqb a Py.newline)
  | Digit => is_digit a
  end.

(** Without [re.M], [$] matches at the end of the string and just before a
    newline that ends it. *)
Definition at_eol (s : list ascii) : bool :=
  match s with
  | [] => true
  | a :: [] => Py.ascii_eqb a Py.newline
  | _ => false
  end.

(** Group bookkeeping: [opn] holds, innermost first, the text consumed so
    far by each group still open (reversed); [done] the closed groups, last
    closed first. *)
Definition push (a : ascii) (opn : list (list ascii)) : list (list ascii) :=
  map (cons a) opn.

(** A greedy star of class [k] followed by the rest of the pattern, [rest]:
    one more character first, the rest of the pattern where that fails. *)
Fixpoint greedy (ci : bool) (k : cls)
  (rest : bool -> list ascii -> list (list ascii) -> option (list (list ascii)))
  (s : list ascii) (bol : bool) (opn : list (list ascii))
  : option (list (list ascii)) :=
  match s with
  | a :: s' =>
      if accepts ci k a then
        match greedy ci k rest s' false (push a opn) with
        | Some r => Some r
        | None => rest bol s opn
        end
      else rest bol s opn
  | [] => rest bol s opn
  end.

(** A lazy star: the rest of the pattern first, one more character where
    that fails. *)
Fixpoint lazy (ci : bool) (k : cls)
  (rest : bool -> list ascii -> list (list ascii) -> option (list (list ascii)))
  (s : list ascii) (bol : bool) (opn : list (list ascii))
  : option (list (list ascii)) :=
  match rest bol s opn with
  | Some r => Some r
  | None =>
      match s with
      | a :: s' =>
          if accepts ci k a then lazy ci k rest s' false (push a opn) else None
      | [] => None
      end
  end.

(** [run ci re bol s opn done]: match [re] at the head of [s]; [bol] says
    whether [s] is the whole subject.  The result is the list of groups in
    the order they were closed. *)
Fixpoint run (ci : bool) (re : regex) (bol : bool) (s : list ascii)
  (opn done : list (list ascii)) {struct re} : option (list (list ascii)) :=
  match re with
  | [] => Some (rev done)
  | One k :: re' =>
      match s with
      | a :: s' =>
          if accepts ci k a then run ci re' false s' (push a opn) done
          else None
      | [] => None
      end
  | Star k :: re' =>
      greedy ci k (fun bol' s' opn' => run ci re' bol' s' opn' done) s bol opn
  | Lazy k :: re' =>
      lazy ci k (fun bol' s' opn' => run ci re' bol' s' opn' done) s bol opn
  | Bol :: re' => if bol then run ci re' bol s opn done else None
  | Eol :: re' => if at_eol s then run ci re' bol s opn done else None
  | Open :: re' => run ci re' bol s ([] :: opn) done
  | Close :: re' =>
      match opn with
      | g :: opn' => run ci re' bol s opn' (rev g :: done)
      | [] => None
      end
  end.

(** [pattern.match(s)]: a match at the start of [s]; the result is
    [m.groups()]. *)
Definition match_groups (ci : bool) (re : regex) (s : string)
  : option (list string) :=
  option_map (map Py.str) (run ci re true (Py.chars s) [] []).

(** [pattern.search(s)]: the leftmost match, trying every start position,
    the end of the string included. *)
Fixpoint search_from (ci : bool) (re : regex) (bol : bool) (s : list ascii)
  : option (list (list ascii)) :=
  match run ci re bol s [] [] with
  | Some r => Some r
  | None =>
      match s with
      | [] => None
      | _ :: s' => search_from ci re false s'
      end
  end.

Definition search_groups (ci : bool) (re : regex) (s : string)
  : option (list string) :=
  option_map (map Py.str) (search_from ci re true (Py.chars s)).

(** A literal string as a pattern. *)
Definition lit (s : string) : regex := map (fun a => One (Chr a)) (Py.chars s).

(** Reading a pattern source: the fragment without groups, classes and
    alternation ([^], [$], [.], escaped and plain characters, each followed
    by an optional [*], [*?] or [+]).  Anything else is not in the
    fragment. *)
Definition is_meta (a : ascii) : bool :=
  existsb (Py.ascii_eqb a) (Py.chars "[](){}|?+*\").

Definition is_alnum (a : ascii) : bool :=
  is_digit a || is_upper a || is_upper (ascii_of_nat (nat_of_ascii a - 32)).

Definition quantified (k : cls) (rest : list ascii) : regex * list ascii :=
  match rest with
  | "*"%char :: "?"%char :: rest' => ([Lazy k], rest')
  | "*"%char :: rest' => ([Star k], rest')
  | "+"%char :: rest' => ([One k; Star k], rest')
  | _ => ([One k], rest)
  end.

Fixpoint parse_fuel (fuel : nat) (p : list ascii) : option regex :=
  match fuel with
  | O => None
  | S fuel' =>
      match p with
      | [] => Some []
      | "^"%char :: p' => option_map (cons Bol) (parse_fuel fuel' p')
      | "$"%char :: p' => option_map (cons Eol) (parse_fuel fuel' p')
      | "."%char :: p' =>
          let '(q, rest) := quantified Dot p' in
          option_map (app q) (parse_fuel fuel' rest)
      | "\"%char :: a :: p' =>
          if Py.ascii_eqb a "d"%char then
            let '(q, rest) := quantified Digit p' in
            option_map (app q) (parse_fuel fuel' rest)
          else if is_alnum a then None
          else
            let '(q, rest) := quantified (Chr a) p' in
            option_map (app q) (parse_fuel fuel' rest)
      | a :: p' =>
          if is_meta a then None
          else
            let '(q, rest) := quantified (Chr a) p' in
            option_map (app q) (parse_fuel fuel' rest)
      end
  end.

Definition parse (p : string) : option regex :=
  parse_fuel (S (String.length p)) (Py.chars p).

End Re.

(** ** What [imaplib] hands to the program *)

(** An element of the data list of an [imaplib] response: [None], a string,
    or the pair of strings [imaplib] builds for a literal. *)
Inductive item : Type :=
| INone
| IStr (s : string)
| IPair (a b : string).

(** [(typ, data)], the value of every [imaplib] command. *)
Definition response : Type := string * list item.

(** The commands the program issues on a session. *)
Inductive call : Type :=
| c_login (user password : string)
| c_list
| c_select (mailbox : string) (readonly : bool)
| c_search (charset : option string) (criteria : list string)
| c_fetch (message_set : item) (message_parts : string).

(** One round of [AUTHENTICATE]: the server sends a challenge, or the
    tagged response that ends the exchange. *)
Inductive auth_reply : Type :=
| Continue (challenge : string)
| Completed (typ : string) (data : list item).

(** An argument of an exception ([e[0]] is read by [check]). *)
Inductive pyarg : Type :=
| AInt (n : Z)
| AStr (s : string).

(** The exceptions that can cross the program.  [Hang] is not a Python
    exception: it stands for an authentication exchange that is still
    running after the rounds the model allows; nothing catches it. *)
Inductive exn : Type :=
| IMAP4_abort                      (* imaplib.IMAP4.abort and its subclasses *)
| IMAP4_error                      (* imaplib.IMAP4.error other than abort *)
| sslerror (args : list pyarg)     (* socket.sslerror *)
| socket_error (args : list pyarg) (* socket.error other than sslerror *)
| GSSError                         (* kerberos.GSSError *)
| re_error                         (* re.error *)
| binascii_Error
| AttributeError
| TypeError
| IndexError
| ValueError
| KeyError (key : string)
| RuntimeError                     (* maximum recursion depth exceeded *)
| Hang.

(** [inl e]: the exception [e] was raised; [inr a]: the value [a]. *)
Definition result (A : Type) : Type := exn + A.

(** Sessions and security contexts are objects; the model names them by a
    handle. *)
Definition Conn : Type := nat.
Definition GssCtx : Type := nat.

(** The ghost trace: every call that leaves the program, in order, with
    the answer it got. *)
Inductive event : Type :=
| ev_open (ssl : bool) (host : string) (port : Z) (r : result Conn)
| ev_imap (c : Conn) (cl : call) (r : result response)
| ev_auth (c : Conn) (mech : string) (sent : option string)
    (r : result auth_reply)
| ev_krb_init (service : string) (r : result (Z * GssCtx))
| ev_krb_response (vc : option GssCtx) (r : result (option string))
| ev_krb_step (vc : option GssCtx) (data : string) (r : result Z)
| ev_krb_unwrap (vc : option GssCtx) (data : string) (r : result Z)
| ev_krb_wrap (vc : option GssCtx) (data : option string) (user : string)
    (r : result Z).

(** The environment: the network and the server behind [imaplib], the
    [kerberos] library, [re] on patterns the user supplies and the base64
    codec.  [World] is the whole of its state; each operation answers and
    moves it on. *)
Record Env : Type := {
  World : Type;
  imap_open : bool -> string -> Z -> World -> result Conn * World;
  imap_call : Conn -> call -> World -> result response * World;
  imap_auth : Conn -> string -> option string -> World ->
              result auth_reply * World;
  authGSSClientInit : string -> World -> result (Z * GssCtx) * World;
  authGSSClientResponse : option GssCtx -> World ->
                          result (option string) * World;
  authGSSClientStep : option GssCtx -> string -> World -> result Z * World;
  authGSSClientUnwrap : option GssCtx -> string -> World -> result Z * World;
  authGSSClientWrap : option GssCtx -> option string -> string -> World ->
                      result Z * World;
  HAVE_KERBEROS_GSS : bool;
  b64encode : string -> string;       (* without the line breaks *)
  b64decode : string -> result string;
  re_valid : string -> bool;          (* re.compile accepts the pattern *)
  re_search_I : string -> string -> bool  (* re.compile(p, re.I).search(s) *)
}.

(** [imaplib]'s default ports. *)
Definition IMAP4_PORT : Z := 143.
Definition IMAP4_SSL_PORT : Z := 993.

(** An [imaplib.IMAP4] object, or an [imaplib.IMAP4_SSL] one when
    [imap_ssl] holds. *)
Record IMAP4 : Type := {
  imap_ssl : bool;
  imap_host : string;
  imap_port : Z;
  imap_conn : Conn
}.

(** [kerberos.AUTH_GSS_CONTINUE] and the two states of line 14. *)
Definition AUTH_GSS_CONTINUE : Z := 0.
Definition GSS_STATE_STEP : Z := 0.
Definition GSS_STATE_WRAP : Z := 1.

(** An [email.message.Message]: the text it was parsed from and the
    headers set on it afterwards, in order. *)
Record Message : Type := {
  msg_source : string;
  msg_set : list (string * string)
}.

Definition message_from_string (s : string) : Message :=
  {| msg_source := s; msg_set := [] |}.

Definition setitem (m : Message) (name val : string) : Message :=
  {| msg_source := msg_source m; msg_set := msg_set m ++ [(name, val)] |}.

(** ** The handler object *)

Record EmailHandler : Type := {
  server : string;
  port : Z;
  imap : IMAP4;
  gss_step : Z;
  gss_vc : option GssCtx;
  gssapi : bool;
  username : string;
  password : option string;     (* set only by the login branch *)
  include : string;             (* a compiled pattern, by its source *)
  exclude : string;
  last_uid : gmap string Z
}.

Definition set_imap (i : IMAP4) (h : EmailHandler) : EmailHandler :=
  {| server := server h; port := port h; imap := i; gss_step := gss_step h;
     gss_vc := gss_vc h; gssapi := gssapi h; username := username h;
     password := password h; include := include h; exclude := exclude h;
     last_uid := last_uid h |}.

Definition set_gss_step (n : Z) (h : EmailHandler) : EmailHandler :=
  {| server := server h; port := port h; imap := imap h; gss_step := n;
     gss_vc := gss_vc h; gssapi := gssapi h; username := username h;
     password := password h; include := include h; exclude := exclude h;
     last_uid := last_uid h |}.

Definition set_gss_vc (vc : option GssCtx) (h : EmailHandler) : EmailHandler :=
  {| server := server h; port := port h; imap := imap h;
     gss_step := gss_step h; gss_vc := vc; gssapi := gssapi h;
     username := username h; password := password h; include := include h;
     exclude := exclude h; last_uid := last_uid h |}.

Definition set_password (p : option string) (h : EmailHandler) : EmailHandler :=
  {| server := server h; port := port h; imap := imap h;
     gss_step := gss_step h; gss_vc := gss_vc h; gssapi := gssapi h;
     username := username h; password := p; include := include h;
     exclude := exclude h; last_uid := last_uid h |}.

Definition set_last_uid (m : gmap string Z) (h : EmailHandler) : EmailHandler :=
  {| server := server h; port := port h; imap := imap h;
     gss_step := gss_step h; gss_vc := gss_vc h; gssapi := gssapi h;
     username := username h; password := password h; include := include h;
     exclude := exclude h; last_uid := m |}.

(** ** The fixed patterns of the source *)

(** Line 73, the pattern of a folder descriptor: an opening parenthesis,
    a lazy run of any characters, a closing parenthesis, a space, the group
    [sep] (a greedy run) between double quotes, a space, and the group
    [name] (a greedy run). *)
Definition folder_re : Re.regex :=
  Re.lit "(" ++ [Re.Lazy Re.Dot] ++ Re.lit ") " ++
  [Re.One (Re.Chr Py.dquote); Re.Open; Re.Star Re.Dot; Re.Close;
   Re.One (Re.Chr Py.dquote)] ++
  Re.lit " " ++ [Re.Open; Re.Star Re.Dot; Re.Close].

(** Lines 65 and 107, the pattern of a UID envelope: the text [(UID ],
    a group of one or more digits, a closing parenthesis. *)
Definition uid_re : Re.regex :=
  Re.lit "(UID " ++ [Re.Open; Re.One Re.Digit; Re.Star Re.Digit; Re.Close] ++
  Re.lit ")".

(** [folder_re.match(f_str).groups()]. *)
Definition folder_groups (f_str : item) : result (string * string) :=
  match f_str with
  | IStr s =>
      match Re.match_groups false folder_re s with
      | Some [sep; name] => inr (sep, name)
      | Some _ => inl IndexError
      | None => inl AttributeError
      end
  | _ => inl TypeError
  end.

(** Line 76: the name, stripped of double quotes at both ends, with every
    occurrence of the separator replaced by a slash. *)
Definition canonical (m : string * string) : string :=
  Py.str (Py.replace_chars (Py.chars (fst m)) (Py.chars "/")
            (Py.strip_chars Py.dquote (Py.chars (snd m)))).

(** Lines 65 and 107: [int] of group 1 of the search of the UID pattern in
    [uid_text]. *)
Definition parse_uid (uid_text : item) : result Z :=
  match uid_text with
  | IStr s =>
      match Re.search_groups false uid_re s with
      | Some (g :: _) => inr (Py.int_of_digits (Py.chars g))
      | Some [] => inl IndexError
      | None => inl AttributeError
      end
  | _ => inl TypeError
  end.

(** [x == s] for an element [x] of a data list and a string [s]. *)
Definition item_is (s : string) (x : item) : bool :=
  match x with
  | IStr t => String.eqb t s
  | _ => false
  end.

(** [new == ['']]. *)
Definition is_all_read (new : list item) : bool :=
  match new with
  | [x] => item_is EmptyString x
  | _ => false
  end.

(** [x[1]] for an element of a data list. *)
Definition item_1 (x : item) : result string :=
  match x with
  | IPair _ b => inr b
  | IStr s =>
      match Py.str_index s 1 with
      | Some c => inr c
      | None => inl IndexError
      end
  | INone => inl TypeError
  end.

(** Line 101:
    [[email.message_from_string(x[1]) for x in data if x != ')']]. *)
Fixpoint parse_headers (data : list item) : result (list Message) :=
  match data with
  | [] => inr []
  | x :: rest =>
      if item_is ")" x then parse_headers rest
      else
        match item_1 x with
        | inl e => inl e
        | inr text =>
            match parse_headers rest with
            | inl e => inl e
            | inr ms => inr (message_from_string text :: ms)
            end
        end
  end.

(** A list comprehension whose element expression may raise. *)
Fixpoint map_result {A B : Type} (f : A -> result B) (l : list A)
  : result (list B) :=
  match l with
  | [] => inr []
  | a :: l' =>
      match f a with
      | inl e => inl e
      | inr b =>
          match map_result f l' with
          | inl e => inl e
          | inr bs => inr (b :: bs)
          end
      end
  end.

(** ** Computations: the handler, the environment and the ghost trace *)

Section Handler.

Context (E : Env).

(** The number of challenges an [AUTHENTICATE] exchange may take in the
    model before it counts as hung. *)
Context (rounds : nat).

Record state : Type := {
  self : EmailHandler;
  world : World E;
  trace : list event
}.

(** A method body: it may raise, and what it did to the object and to the
    world before raising stays done. *)
Definition M (A : Type) : Type := state -> result A * state.

Definition ret {A : Type} (a : A) : M A := fun st => (inr a, st).

Definition raise {A : Type} (e : exn) : M A := fun st => (inl e, st).

Definition bind {A B : Type} (m : M A) (f : A -> M B) : M B :=
  fun st =>
    match m st with
    | (inr a, st') => f a st'
    | (inl e, st') => (inl e, st')
    end.

Definition lift {A : Type} (r : result A) : M A := fun st => (r, st).

Definition get_self : M EmailHandler := fun st => (inr (self st), st).

Definition modify_self (f : EmailHandler -> EmailHandler) : M unit :=
  fun st =>
    (inr tt, {| self := f (self st); world := world st; trace := trace st |}).

(** A call to the outside: the world answers and moves on, the trace grows
    by the call and its answer. *)
Definition extern {A : Type} (ev : result A -> event)
  (op : World E -> result A * World E) : M A :=
  fun st =>
    (fst (op (world st)),
     {| self := self st; world := snd (op (world st));
        trace := trace st ++ [ev (fst (op (world st)))] |}).

Notation "'let*' x ':=' m 'in' k" := (bind m (fun x => k))
  (at level 10, x name, m at level 100, k at level 200).
Notation "m ';;' k" := (bind m (fun _ => k))
  (at level 100, k at level 200, right associativity).

(** [for x in l: body], where [continue] is an early [ret tt]. *)
Fixpoint for_each {A : Type} (body : A -> M unit) (l : list A) : M unit :=
  match l with
  | [] => ret tt
  | a :: l' => body a ;; for_each body l'
  end.

(** The same with a local variable the body updates. *)
Fixpoint for_fold {A B : Type} (body : A -> B -> M B) (l : list A) (b : B)
  : M B :=
  match l with
  | [] => ret b
  | a :: l' => let* b' := body a b in for_fold body l' b'
  end.

(** *** [imaplib] *)

(** [imaplib.IMAP4(host, port)] and [imaplib.IMAP4_SSL(host, port)]; an
    omitted port is the default of the class. *)
Definition default_port (ssl : bool) : Z :=
  if ssl then IMAP4_SSL_PORT else IMAP4_PORT.

Definition new_IMAP4 (ssl : bool) (host : string) (port : option Z)
  : M IMAP4 :=
  let p := match port with Some p => p | None => default_port ssl end in
  let* c := extern (ev_open ssl host p) (imap_open E ssl host p) in
  ret {| imap_ssl := ssl; imap_host := host; imap_port := p; imap_conn := c |}.

(** A command on [self.imap]. *)
Definition command (cl : call) : M response :=
  let* s := get_self in
  extern (ev_imap (imap_conn (imap s)) cl)
         (imap_call E (imap_conn (imap s)) cl).

(** [self.imap.authenticate(mech, authobject)]: the callback answers each
    challenge until the server completes the exchange; a completion other
    than OK raises [error]. *)
Fixpoint auth_loop (n : nat) (mech : string) (authobject : string -> M string)
  (sent : option string) : M unit :=
  match n with
  | O => raise Hang
  | S n' =>
      let* s := get_self in
      let* r := extern (ev_auth (imap_conn (imap s)) mech sent)
                       (imap_auth E (imap_conn (imap s)) mech sent) in
      match r with
      | Completed typ _ =>
          if String.eqb typ "OK" then ret tt else raise IMAP4_error
      | Continue challenge =>
          let* answer := authobject challenge in
          auth_loop n' mech authobject (Some answer)
      end
  end.

Definition authenticate (mech : string) (authobject : string -> M string)
  : M unit :=
  auth_loop rounds mech authobject None.

(** *** [gssauth] (lines 137-160) *)

Definition gssauth (response : string) : M string :=
  if negb (HAVE_KERBEROS_GSS E) then raise ValueError
  else
    let data := b64encode E response in
    let* s := get_self in
    (if Z.eqb (gss_step s) GSS_STATE_STEP then
       (match gss_vc s with
        | None =>
            let* r := extern (ev_krb_init ("imap@" +:+ server s))
                             (authGSSClientInit E ("imap@" +:+ server s)) in
            modify_self (set_gss_vc (Some (snd r))) ;;
            let* _ := extern (ev_krb_response (Some (snd r)))
                             (authGSSClientResponse E (Some (snd r))) in
            ret tt
        | Some _ => ret tt
        end) ;;
       let* s1 := get_self in
       let* rc := extern (ev_krb_step (gss_vc s1) data)
                         (authGSSClientStep E (gss_vc s1) data) in
       if Z.eqb rc AUTH_GSS_CONTINUE then ret tt
       else modify_self (set_gss_step GSS_STATE_WRAP)
     else if Z.eqb (gss_step s) GSS_STATE_WRAP then
       let* _ := extern (ev_krb_unwrap (gss_vc s) data)
                        (authGSSClientUnwrap E (gss_vc s) data) in
       let* resp := extern (ev_krb_response (gss_vc s))
                           (authGSSClientResponse E (gss_vc s)) in
       let* _ := extern (ev_krb_wrap (gss_vc s) resp (username s))
                        (authGSSClientWrap E (gss_vc s) resp (username s)) in
       ret tt
     else ret tt) ;;
    let* s2 := get_self in
    let* resp := extern (ev_krb_response (gss_vc s2))
                        (authGSSClientResponse E (gss_vc s2)) in
    lift (b64decode E (match resp with
                       | Some r => r
                       | None => EmptyString
                       end)).

(** [self.imap.login(self.username, self.password)]; reading an attribute
    never set raises [AttributeError], and [imaplib] raises [error] on an
    answer other than OK. *)
Definition login : M unit :=
  let* s := get_self in
  match password s with
  | None => raise AttributeError
  | Some p =>
      let* r := command (c_login (username s) p) in
      if String.eqb (fst r) "OK" then ret tt else raise IMAP4_error
  end.

(** *** [get_folders] (lines 67-80) *)

Definition get_folders : M (list string) :=
  let* listing := command c_list in
  let* matches := lift (map_result folder_groups (snd listing)) in
  let canonical_folders := map canonical matches in
  let* s := get_self in
  ret (List.filter (fun folder =>
                 re_search_I E (include s) folder &&
                 negb (re_search_I E (exclude s) folder))
              canonical_folders).

Definition set_mark (folder : string) (uid : Z) : M unit :=
  modify_self (fun h => set_last_uid (<[folder := uid]> (last_uid h)) h).

(** *** [set_last_uids] (lines 50-65): the body of the loop, then the
    method *)

Definition set_last_uids_folder (folder : string) : M unit :=
  if Py.contains "[Gmail]" folder then ret tt
  else
    let* selection := command (c_select folder true) in
    if String.eqb (fst selection) "NO" then ret tt
    else
      match snd selection with
      | [] => raise IndexError
      | last_msgid :: _ =>
          if item_is "0" last_msgid then set_mark folder 0
          else
            let* fetched := command (c_fetch last_msgid "UID") in
            match snd fetched with
            | [] => raise IndexError
            | uid_text :: _ =>
                let* uid := lift (parse_uid uid_text) in
                set_mark folder uid
            end
      end.

Definition set_last_uids : M unit :=
  modify_self (set_last_uid ∅) ;;
  let* folders := get_folders in
  for_each set_last_uids_folder folders.

(** *** [check] (lines 82-135) *)

(** The criterion of line 94. *)
Definition uid_range (mark : Z) : string :=
  "(UID " +:+ Py.fmt_d (mark + 1) +:+ ":99999999)".

(** Lines 90-107, the body of the loop; [headers] is the list collected so
    far. *)
Definition check_folder (folder : string) (headers : list Message)
  : M (list Message) :=
  if Py.contains "[Gmail]" folder then ret headers
  else
    let* selection := command (c_select folder true) in
    match snd selection with
    | [nmesgs] =>
        if String.eqb (fst selection) "NO" then ret headers
        else
          let* s := get_self in
          match last_uid s !! folder with
          | None => raise (KeyError folder)
          | Some mark =>
              let* found := command (c_search None ["UNSEEN"; uid_range mark]) in
              if is_all_read (snd found) then ret headers
              else
                match snd found with
                | [] => raise IndexError
                | IStr new0 :: _ =>
                    let indices :=
                      Py.str (Py.replace_chars (Py.chars " ") (Py.chars ",")
                                (Py.chars new0)) in
                    let* fetched :=
                      command (c_fetch (IStr indices) "(BODY[HEADER])") in
                    let* new_headers := lift (parse_headers (snd fetched)) in
                    let tagged :=
                      map (fun m => setitem m "folder" folder) new_headers in
                    let* last := command (c_fetch nmesgs "UID") in
                    match snd last with
                    | [] => raise IndexError
                    | uid_text :: _ =>
                        let* uid := lift (parse_uid uid_text) in
                        set_mark folder uid ;;
                        ret (headers ++ tagged)
                    end
                | _ :: _ => raise AttributeError
                end
          end
    | _ => raise ValueError
    end.

(** Lines 87-107: the [try] block. *)
Definition check_try : M (list Message) :=
  let* folders := get_folders in
  for_fold check_folder folders [].

(** Line 109: the exceptions the [except] clause names. *)
Definition caught (e : exn) : bool :=
  match e with
  | IMAP4_abort => true
  | sslerror _ => true
  | _ => false
  end.

(** Lines 114-115: [isinstance(e, sslerror) and e[0] != 8]. *)
Definition reraised (e : exn) : result bool :=
  match e with
  | sslerror [] => inl IndexError
  | sslerror (AInt 8 :: _) => inr false
  | sslerror (_ :: _) => inr true
  | _ => inr false
  end.

(** Lines 114-129: the handler, up to the retry. *)
Definition recover (e : exn) : M unit :=
  let* again := lift (reraised e) in
  if (again : bool) then raise e
  else
    let* s := get_self in
    let* fresh := new_IMAP4 (imap_ssl (imap s)) (server s) None in
    modify_self (set_imap fresh) ;;
    if gssapi s then authenticate "GSSAPI" gssauth else login.

(** [check]: [depth] is the number of nested calls Python still allows;
    past it the call of line 132 raises [RuntimeError]. *)
Fixpoint check (depth : nat) : M (list Message) :=
  fun st =>
    match check_try st with
    | (inr headers, st1) => (inr headers, st1)
    | (inl e, st1) =>
        if caught e then
          match recover e st1 with
          | (inr _, st2) =>
              match depth with
              | O => (inl RuntimeError, st2)
              | S d => check d st2
              end
          | (inl e', st2) => (inl e', st2)
          end
        else (inl e, st1)
    end.

(** *** [__init__] (lines 23-47) *)

(** Lines 25-29: a missing port, or 0, is the default of the class. *)
Definition init_port (port0 : option Z) (use_ssl : bool) : Z :=
  match port0 with
  | None => default_port use_ssl
  | Some 0 => default_port use_ssl
  | Some p => p
  end.

(** The object before the constructor has opened the session: the
    attributes the constructor sets from its arguments, no password, no
    mark, and a session that is not one yet. *)
Definition init_self (server0 username0 : string) (port0 : option Z)
  (use_ssl : bool) (include0 exclude0 : string) (use_gssapi : bool)
  : EmailHandler :=
  {| server := server0; port := init_port port0 use_ssl;
     imap := {| imap_ssl := use_ssl; imap_host := server0;
                imap_port := init_port port0 use_ssl; imap_conn := O |};
     gss_step := 0; gss_vc := None; gssapi := use_gssapi;
     username := username0; password := None;
     include := include0; exclude := exclude0; last_uid := ∅ |}.

(** Lines 30-46: open the session, authenticate, compile the patterns. *)
Definition init_session (password0 : string) (use_ssl use_gssapi : bool)
  (include0 exclude0 : string) : M unit :=
  let* s := get_self in
  let* session := new_IMAP4 use_ssl (server s) (Some (port s)) in
  modify_self (set_imap session) ;;
  (if use_gssapi then authenticate "GSSAPI" gssauth
   else modify_self (set_password (Some password0)) ;; login) ;;
  (if re_valid E include0 then ret tt else raise re_error) ;;
  (if re_valid E exclude0 then ret tt else raise re_error).

(** The constructor, from a world [w]: the result, and the object with the
    world it leaves. *)
Definition __init__ (server0 username0 password0 : string) (port0 : option Z)
  (use_ssl : bool) (include0 exclude0 : string) (use_gssapi : bool)
  (w : World E) : result unit * state :=
  (init_session password0 use_ssl use_gssapi include0 exclude0 ;;
   set_last_uids)
    {| self := init_self server0 username0 port0 use_ssl include0 exclude0
                 use_gssapi;
       world := w; trace := [] |}.

(** *** A pass of the loop of [check] over folders with nothing new

    [quiet_pass c marks fs w] follows the calls lines 90-95 make for the
    folders [fs] on session [c] from the world [w], as long as every folder
    is either special, refused by the server, or answered with the empty
    search result for the range above its mark; it gives the world after the
    last of them. *)
Fixpoint quiet_pass (c : Conn) (marks : gmap string Z) (fs : list string)
  (w : World E) : option (World E) :=
  match fs with
  | [] => Some w
  | folder :: fs' =>
      if Py.contains "[Gmail]" folder then quiet_pass c marks fs' w
      else
        match fst (imap_call E c (c_select folder true) w) with
        | inr (typ, [_]) =>
            let w1 := snd (imap_call E c (c_select folder true) w) in
            if String.eqb typ "NO" then quiet_pass c marks fs' w1
            else
              match marks !! folder with
              | None => None
              | Some mark =>
                  let q := c_search None ["UNSEEN"; uid_range mark] in
                  match fst (imap_call E c q w1) with
                  | inr (_, found) =>
                      if is_all_read found
                      then quiet_pass c marks fs' (snd (imap_call E c q w1))
                      else None
                  | inl _ => None
                  end
              end
        | _ => None
        end
  end.

End Handler.

Arguments self {E} _.
Arguments world {E} _.
Arguments trace {E} _.

(** ** Reading the ghost trace *)

(** The folders opened, in order. *)
Fixpoint selected (tr : list event) : list string :=
  match tr with
  | [] => []
  | ev_imap _ (c_select mailbox _) _ :: tr' => mailbox :: selected tr'
  | _ :: tr' => selected tr'
  end.

(** The sessions opened: class, host and port. *)
Fixpoint opened (tr : list event) : list (bool * string * Z) :=
  match tr with
  | [] => []
  | ev_open ssl host p _ :: tr' => (ssl, host, p) :: opened tr'
  | _ :: tr' => opened tr'
  end.

(** The UIDs the server reported in answer to a fetch of [UID], each with
    the folder that was open; [cur] is the folder open at the start. *)
Fixpoint uid_reports (cur : option string) (tr : list event)
  : list (string * Z) :=
  match tr with
  | [] => []
  | ev_imap _ (c_select mailbox _) _ :: tr' => uid_reports (Some mailbox) tr'
  | ev_imap _ (c_fetch _ parts) (inr (_, uid_text :: _)) :: tr' =>
      if String.eqb parts "UID" then
        match cur, parse_uid uid_text with
        | Some folder, inr uid => (folder, uid) :: uid_reports cur tr'
        | _, _ => uid_reports cur tr'
        end
      else uid_reports cur tr'
  | _ :: tr' => uid_reports cur tr'
  end.

(** The folder open after the events [tr], [cur] being open before. *)
Fixpoint folder_after (cur : option string) (tr : list event) : option string :=
  match tr with
  | [] => cur
  | ev_imap _ (c_select mailbox _) _ :: tr' => folder_after (Some mailbox) tr'
  | _ :: tr' => folder_after cur tr'
  end.

(** The value of [m[name]] set last on a message. *)
Definition tag_of (m : Message) : option (string * string) :=
  last (msg_set m).

(** The folders the loops of [check] and [set_last_uids] do not skip at
    lines 57 and 90. *)
Definition polled (fs : list string) : list string :=
  List.filter (fun folder => negb (Py.contains "[Gmail]" folder)) fs.

(** ** A scripted environment

    The world is the list of answers still to be given; each call takes the
    next one.  An answer of the wrong kind, or no answer left, is a protocol
    error.  Patterns are read by [Re.parse], base64 is left out (the codec
    is the identity). *)

Module Scripted.

Inductive reply : Type :=
| r_open (r : result Conn)
| r_imap (r : result response)
| r_auth (r : result auth_reply)
| r_init (r : result (Z * GssCtx))
| r_resp (r : result (option string))
| r_rc (r : result Z).

Definition next {A : Type} (pick : reply -> option (result A))
  (w : list reply) : result A * list reply :=
  match w with
  | [] => (inl IMAP4_error, [])
  | r :: w' =>
      match pick r with
      | Some a => (a, w')
      | None => (inl IMAP4_error, w')
      end
  end.

Definition pick_open (r : reply) : option (result Conn) :=
  match r with r_open a => Some a | _ => None end.
Definition pick_imap (r : reply) : option (result response) :=
  match r with r_imap a => Some a | _ => None end.
Definition pick_auth (r : reply) : option (result auth_reply) :=
  match r with r_auth a => Some a | _ => None end.
Definition pick_init (r : reply) : option (result (Z * GssCtx)) :=
  match r with r_init a => Some a | _ => None end.
Definition pick_resp (r : reply) : option (result (option string)) :=
  match r with r_resp a => Some a | _ => None end.
Definition pick_rc (r : reply) : option (result Z) :=
  match r with r_rc a => Some a | _ => None end.

Definition search_I (p s : string) : bool :=
  match Re.parse p with
  | Some re =>
      match Re.search_groups true re s with
      | Some _ => true
      | None => false
      end
  | None => false
  end.

Definition valid (p : string) : bool :=
  match Re.parse p with
  | Some _ => true
  | None => false
  end.

Definition env : Env := {|
  World := list reply;
  imap_open := fun _ _ _ => next pick_open;
  imap_call := fun _ _ => next pick_imap;
  imap_auth := fun _ _ _ => next pick_auth;
  authGSSClientInit := fun _ => next pick_init;
  authGSSClientResponse := fun _ => next pick_resp;
  authGSSClientStep := fun _ _ => next pick_rc;
  authGSSClientUnwrap := fun _ _ => next pick_rc;
  authGSSClientWrap := fun _ _ _ => next pick_rc;
  HAVE_KERBEROS_GSS := true;
  b64encode := fun s => s;
  b64decode := fun s => inr s;
  re_valid := valid;
  re_search_I := search_I
|}.

(** An [OK] answer with the given data. *)
Definition ok (data : list item) : reply := r_imap (inr ("OK", data)).
Definition no (data : list item) : reply := r_imap (inr ("NO", data)).

(** The descriptor the server lists for folder [name] under the separator
    [/]. *)
Definition q : string := String Py.dquote EmptyString.
Definition descriptor (name : string) : item :=
  IStr ("(\HasNoChildren) " +:+ q +:+ "/" +:+ q +:+ " " +:+ q +:+ name +:+ q).

End Scripted.

(** ** Predicates used to state what a run did *)

Section Observations.

Context {E : Env}.

(** Between [st] and [st'], with [new] the calls made in between: the mark
    of every folder is what it was, or it is a UID the server reported for
    that folder in [new]. *)
Definition marks_step (st st' : state E) (new : list event) : Prop :=
  forall folder,
    last_uid (self st') !! folder = last_uid (self st) !! folder \/
    exists uid,
      last_uid (self st') !! folder = Some uid /\
      forall cur, In (folder, uid) (uid_reports cur new).

(** The handler [h'] differs from [h] in [last_uid] at most. *)
Definition only_marks (h h' : EmailHandler) : Prop :=
  h' = set_last_uid (last_uid h') h.

End Observations.

(** The attributes no method changes after construction, and the class of
    the session. *)
Definition kept (h h' : EmailHandler) : Prop :=
  server h' = server h /\ port h' = port h /\ gssapi h' = gssapi h /\
  username h' = username h /\ password h' = password h /\
  include h' = include h /\ exclude h' = exclude h /\
  imap_ssl (imap h') = imap_ssl (imap h).

(** The authentication state only moves forward: a handler in state WRAP
    stays there, and a security context, once set, stays the same. *)
Definition gss_kept (h h' : EmailHandler) : Prop :=
  (gss_step h = GSS_STATE_WRAP -> gss_step h' = GSS_STATE_WRAP) /\
  (forall vc, gss_vc h = Some vc -> gss_vc h' = Some vc).

(** An event that neither opens a folder nor fetches from one. *)
Definition off_folder (ev : event) : Prop :=
  match ev with
  | ev_imap _ (c_select _ _) _ => False
  | ev_imap _ (c_fetch _ _) _ => False
  | _ => True
  end.

(** The calls made between the states [st] and [st'] of one run. *)
Definition since {E : Env} (st st' : state E) : list event :=
  drop (length (trace st)) (trace st').

(** Deciding an equation [run = (r, st)] on a concrete run, where [st] is
    the state the run ends in: only the result is computed (see
    [run_result_eq] below). *)
Ltac run_result lem := apply lem; vm_compute; reflexivity.

(** The state [set_last_uids] starts its listing from: line 55 has emptied
    the dictionary. *)
Definition cleared {E : Env} (st : state E) : state E :=
  {| self := set_last_uid ∅ (self st); world := world st;
     trace := trace st |}.

(** The [re] of the environment behaves, on the patterns [Re.parse] reads,
    as the matcher [Re] does. *)
Definition re_agrees (E : Env) : Prop :=
  forall p re s,
    Re.parse p = Some re ->
    re_search_I E p s =
    match Re.search_groups true re s with Some _ => true | None => false end.

(** ** What a handler may send

    [allowed h ev]: the call [ev] is one a handler with the attributes of
    [h] makes.  Sessions go to its server, with its class; a login carries
    its user name and password, and is made only without GSSAPI; the
    [AUTHENTICATE] exchange and the calls to [kerberos] are made only with
    GSSAPI, for its server and user; folders are opened read-only, and not
    the special ones; a search asks for the unseen messages of a range of
    UIDs that ends at 99999999; a fetch asks for a UID or for headers. *)
Definition allowed (h : EmailHandler) (ev : event) : Prop :=
  match ev with
  | ev_open ssl host _ _ => ssl = imap_ssl (imap h) /\ host = server h
  | ev_imap _ (c_login user pass) _ =>
      gssapi h = false /\ user = username h /\ password h = Some pass
  | ev_imap _ c_list _ => True
  | ev_imap _ (c_select mailbox readonly) _ =>
      readonly = true /\ Py.contains "[Gmail]" mailbox = false
  | ev_imap _ (c_search charset criteria) _ =>
      charset = None /\ exists mark, criteria = ["UNSEEN"; uid_range mark]
  | ev_imap _ (c_fetch _ parts) _ => parts = "UID" \/ parts = "(BODY[HEADER])"
  | ev_auth _ mech _ _ => gssapi h = true /\ mech = "GSSAPI"
  | ev_krb_init service _ =>
      gssapi h = true /\ service = "imap@" +:+ server h
  | ev_krb_response _ _ => gssapi h = true
  | ev_krb_step _ _ _ => gssapi h = true
  | ev_krb_unwrap _ _ _ => gssapi h = true
  | ev_krb_wrap _ _ user _ => gssapi h = true /\ user = username h
  end.

(** The calls of a trace that carry a password, and those that belong to
    GSSAPI. *)
Definition is_login (ev : event) : bool :=
  match ev with
  | ev_imap _ (c_login _ _) _ => true
  | _ => false
  end.

Definition is_gss (ev : event) : bool :=
  match ev with
  | ev_auth _ _ _ _ => true
  | ev_krb_init _ _ => true
  | ev_krb_response _ _ => true
  | ev_krb_step _ _ _ => true
  | ev_krb_unwrap _ _ _ => true
  | ev_krb_wrap _ _ _ _ => true
  | _ => false
  end.

(** The folders opened for writing. *)
Fixpoint opened_for_writing (tr : list event) : list string :=
  match tr with
  | [] => []
  | ev_imap _ (c_select mailbox false) _ :: tr' =>
      mailbox :: opened_for_writing tr'
  | _ :: tr' => opened_for_writing tr'
  end.


(** A line of a folder listing: attributes between parentheses, the
    separator between double quotes, and the name as the server writes it
    (for a quoted name, with its quotes). *)
Definition listed (attrs sep name : list ascii) : item :=
  IStr (Py.str ("("%char :: attrs ++ ")"%char :: " "%char ::
                Py.dquote :: sep ++ Py.dquote :: " "%char :: name)).

Definition no_newline (s : list ascii) : Prop :=
  Forall (fun a => a <> Py.newline) s.

(** A listing line [folder_re] reads back (see [folder_re_reads_line]
    below): no closing parenthesis among the attributes, no newline
    anywhere, no double quote followed by a space in the name. *)
Definition line_ok (line : list ascii * list ascii * list ascii) : Prop :=
  Forall (fun a => a <> ")"%char) line.1.1 /\
  no_newline line.1.1 /\ no_newline line.1.2 /\ no_newline line.2 /\
  Py.contains_chars [Py.dquote; " "%char] line.2 = false.

Definition listed_line (line : list ascii * list ascii * list ascii) : item :=
  listed line.1.1 line.1.2 line.2.

(** What line 76 makes of a separator and a name as written. *)
Definition canonical_line (line : list ascii * list ascii * list ascii)
  : string :=
  canonical (Py.str line.1.2, Py.str line.2).

(** A call that is part of setting a session up: opening it, logging in,
    the AUTHENTICATE exchange, [kerberos]. *)
Definition session_setup (ev : event) : bool :=
  match ev with
  | ev_imap _ (c_login _ _) _ => true
  | ev_imap _ _ _ => false
  | _ => true
  end.

(** The header texts of a fetch answer made of pairs and closing
    parentheses. *)
Fixpoint header_texts (data : list item) : list string :=
  match data with
  | [] => []
  | IPair _ text :: rest => text :: header_texts rest
  | _ :: rest => header_texts rest
  end.

(** The calls to [authGSSClientInit] of a trace. *)
Definition is_krb_init (ev : event) : bool :=
  match ev with
  | ev_krb_init _ _ => true
  | _ => false
  end.

Definition krb_inits (tr : list event) : nat :=
  length (List.filter is_krb_init tr).

(** The number of security contexts a handler may still create: one when
    it has none, none when it has one. *)
Definition contexts_missing (h : EmailHandler) : nat :=
  match gss_vc h with
  | Some _ => 0
  | None => 1
  end.

(** ** Scenarios

    Concrete servers, as scripts of answers, on which the theorems below
    are instantiated. *)

Module Scenario.

Import Scripted.


(** The ordinary case: INBOX holds ten messages at construction, an
    eleventh arrives before the next check. *)
Definition steady_arrival : list reply :=
  [ r_open (inr 1%nat); ok [];
    ok [descriptor "INBOX"]; ok [IStr "10"]; ok [IStr "10 (UID 10)"];
    ok [descriptor "INBOX"]; ok [IStr "11"]; ok [IStr "11"];
    ok [IPair "11 (BODY[HEADER] {13}" "Subject: new"; IStr ")"];
    ok [IStr "11 (UID 11)"] ].

(** Two folders and no new mail: INBOX (ten messages, last UID 10) and
    Lists (three messages, last UID 3) at construction; at the check both
    searches come back empty. *)
Definition no_news : list reply :=
  [ r_open (inr 1%nat); ok [];
    ok [descriptor "INBOX"; descriptor "Lists"];
    ok [IStr "10"]; ok [IStr "10 (UID 10)"];
    ok [IStr "3"]; ok [IStr "3 (UID 3)"];
    ok [descriptor "INBOX"; descriptor "Lists"];
    ok [IStr "10"]; ok [IStr EmptyString];
    ok [IStr "3"]; ok [IStr EmptyString] ].

(** What is left of a failed attempt: the answers of the retry for Lists,
    the folder the first attempt did not reach. *)
Definition lists_answers : list reply :=
  [ ok [IStr "4"]; ok [IStr "4"];
    ok [IPair "4 (BODY[HEADER] {16}" "Subject: digest"; IStr ")"];
    ok [IStr "4 (UID 4)"] ].

(** A session that aborts between two folders.  Construction as in
    [no_news].  At the check INBOX has an eleventh message, which is
    fetched, and its mark moves to 11; opening Lists aborts.  The handler
    reconnects (session 2), logs in and checks again: nothing above 11 in
    INBOX, one new message (UID 4) in Lists. *)
Definition abort_between : list reply :=
  [ r_open (inr 1%nat); ok [];
    ok [descriptor "INBOX"; descriptor "Lists"];
    ok [IStr "10"]; ok [IStr "10 (UID 10)"];
    ok [IStr "3"]; ok [IStr "3 (UID 3)"];
    ok [descriptor "INBOX"; descriptor "Lists"];
    ok [IStr "11"]; ok [IStr "11"];
    ok [IPair "11 (BODY[HEADER] {13}" "Subject: new"; IStr ")"];
    ok [IStr "11 (UID 11)"];
    r_imap (inl IMAP4_abort);
    r_open (inr 2%nat); ok [];
    ok [descriptor "INBOX"; descriptor "Lists"];
    ok [IStr "11"]; ok [IStr EmptyString] ] ++ lists_answers.

(** The handler built by [EmailHandler("mail.example.org", "alice",
    "secret")] on a scripted server, with the state of the world after
    construction. *)
Definition constructed (script : list reply) : state env :=
  snd (__init__ env 1 "mail.example.org" "alice" "secret" None false
         ".*" "^$" false script).

(** A check whose folder listing raises [x]; were the handler to recover,
    a second session and an uneventful retry are there for it. *)
Definition failing_list (x : exn) : list reply :=
  [ r_open (inr 1%nat); ok [];
    ok [descriptor "INBOX"]; ok [IStr "0"];
    r_imap (inl x);
    r_open (inr 2%nat); ok [];
    ok [descriptor "INBOX"]; ok [IStr "0"]; ok [IStr EmptyString] ].

(** The handler built with an explicit port:
    [EmailHandler("mail.example.org", "alice", "secret", port=1143)]. *)
Definition constructed_on_1143 (script : list reply) : state env :=
  snd (__init__ env 1 "mail.example.org" "alice" "secret" (Some 1143) false
         ".*" "^$" false script).

(** A GSSAPI handler.  The first exchange takes three challenges: two
    steps of the security context 7 (the second completes it, and the
    handler moves to WRAP), then the unwrap and wrap of the final token.
    At the check the session aborts; the handler reconnects and the server
    starts a new exchange, whose first challenge the library is asked to
    unwrap in context 7, which it refuses. *)
Definition gss_session_lost : list reply :=
  [ r_open (inr 1%nat);
    r_auth (inr (Continue EmptyString));
    r_init (inr (1, 7%nat)); r_resp (inr None);
    r_rc (inr 0); r_resp (inr (Some "token-1"));
    r_auth (inr (Continue "token-2"));
    r_rc (inr 1); r_resp (inr None);
    r_auth (inr (Continue "token-3"));
    r_rc (inr 1); r_resp (inr (Some "flags")); r_rc (inr 1);
    r_resp (inr (Some "token-4"));
    r_auth (inr (Completed "OK" []));
    ok [descriptor "INBOX"]; ok [IStr "0"];
    r_imap (inl IMAP4_abort);
    r_open (inr 2%nat);
    r_auth (inr (Continue EmptyString));
    r_rc (inl GSSError) ].

Definition gss_constructed : state env :=
  snd (__init__ env 5 "mail.example.org" "alice" EmptyString None false
         ".*" "^$" true gss_session_lost).

(** The state the constructor hands to [set_last_uids]: connected and
    logged in, no mark yet. *)
Definition session (script : list reply) : state env :=
  snd (init_session env 1 "secret" false false ".*" "^$"
         (Build_state env
            (init_self "mail.example.org" "alice" None false ".*" "^$" false)
            script [])).

(** Mark initialisation: INBOX is empty, the last message of
    INBOX/Archive, the twelfth, has UID 4821. *)
Definition two_marks : list reply :=
  [ r_open (inr 1%nat); ok [];
    ok [descriptor "INBOX"; descriptor "INBOX/Archive"];
    ok [IStr "0"];
    ok [IStr "12"]; ok [IStr "12 (UID 4821)"] ].

(** Mark initialisation with a malformed answer for the first folder; the
    answers for the second one are never asked for. *)
Definition lists_unasked : list reply :=
  [ ok [IStr "3"]; ok [IStr "3 (UID 3)"] ].

Definition garbage_uid : list reply :=
  [ r_open (inr 1%nat); ok [];
    ok [descriptor "INBOX"; descriptor "Lists"];
    ok [IStr "5"]; ok [IStr "garbage"] ] ++ lists_unasked.

(** A folder the server refuses at construction and opens at the next
    check. *)
Definition refused_then_opened : list reply :=
  [ r_open (inr 1%nat); ok [];
    ok [descriptor "INBOX"; descriptor "Shared"];
    ok [IStr "0"]; no [IStr "[NOPERM] Permission denied"];
    ok [descriptor "INBOX"; descriptor "Shared"];
    ok [IStr "0"]; ok [IStr EmptyString];
    ok [IStr "2"]; ok [IStr "1 2"] ].

(** The four folders of C5, listed at construction and at the check,
    with nothing in any of them. *)
Definition four_listed : reply :=
  ok [ descriptor "INBOX"; descriptor "INBOX/Archive";
       descriptor "[Gmail]/All Mail"; descriptor "Work" ].

Definition four_folders : list reply :=
  [ r_open (inr 1%nat); ok [];
    four_listed; ok [IStr "0"]; ok [IStr "0"];
    four_listed; ok [IStr "0"]; ok [IStr EmptyString];
    ok [IStr "0"]; ok [IStr EmptyString] ].

(** [EmailHandler("mail.example.org", "alice", "secret", include=".*",
    exclude="^Work$")]. *)
Definition constructed_without_work (script : list reply) : state env :=
  snd (__init__ env 1 "mail.example.org" "alice" "secret" None false
         ".*" "^Work$" false script).

(** The groups [folder_re] finds in a listing. *)
Definition groups_of (data : list item) : list (string * string) :=
  match map_result folder_groups data with
  | inr ms => ms
  | inl _ => []
  end.

(** An account whose folders are gone at the check: INBOX, empty, at
    construction; then a listing without entries, for which [imaplib]
    answers with the one item [None]. *)
Definition listing_lost : list reply :=
  [ r_open (inr 1%nat); ok [];
    ok [descriptor "INBOX"]; ok [IStr "0"];
    ok [INone] ].

(** The two lines of the listing of [no_news], as attributes, separator
    and name. *)
Definition two_lines : list (list ascii * list ascii * list ascii) :=
  [ (Py.chars "\HasNoChildren", Py.chars "/",
     Py.dquote :: Py.chars "INBOX" ++ [Py.dquote]);
    (Py.chars "\HasNoChildren", Py.chars "/",
     Py.dquote :: Py.chars "Lists" ++ [Py.dquote]) ].

End Scenario.

(** ** A server that drops every session

    It accepts every connection and every login, and aborts every other
    command.  It has no state. *)

Module Dropping.

Definition env : Env := {|
  World := unit;
  imap_open := fun _ _ _ w => (inr 1%nat, w);
  imap_call := fun _ cl w =>
    match cl with
    | c_login _ _ => (inr ("OK", [IStr "LOGIN completed"]), w)
    | _ => (inl IMAP4_abort, w)
    end;
  imap_auth := fun _ _ _ w => (inl IMAP4_abort, w);
  authGSSClientInit := fun _ w => (inl GSSError, w);
  authGSSClientResponse := fun _ w => (inl GSSError, w);
  authGSSClientStep := fun _ _ w => (inl GSSError, w);
  authGSSClientUnwrap := fun _ _ w => (inl GSSError, w);
  authGSSClientWrap := fun _ _ _ w => (inl GSSError, w);
  HAVE_KERBEROS_GSS := false;
  b64encode := fun s => s;
  b64decode := fun s => inr s;
  re_valid := Scripted.valid;
  re_search_I := Scripted.search_I
|}.

(** A handler that was logged in before the server began to drop its
    sessions. *)
Definition handler : state env :=
  Build_state env
    (set_imap {| imap_ssl := false; imap_host := "mail.example.org";
                 imap_port := 143; imap_conn := 1%nat |}
       (set_password (Some "secret")
          (init_self "mail.example.org" "alice" None false ".*" "^$" false)))
    tt [].

End Dropping.

(** * Properties *)

Section Facts.
Context (E : Env) (rounds : nat).

#[local] Arguments uid_re : simpl never.
#[local] Arguments folder_re : simpl never.

Lemma uid_reports_app cur a b :
  uid_reports cur (a ++ b) = uid_reports cur a ++ uid_reports (folder_after cur a) b.
Proof.
  revert cur. induction a as [|ev a IH]; intros cur; [done|].
  destruct ev; cbn; try apply IH.
  destruct cl; cbn; try apply IH.
  destruct r as [e|[typ [|x d]]]; cbn; try apply IH.
  destruct (String.eqb message_parts "UID"); try apply IH.
  destruct cur, (parse_uid x); cbn; rewrite ?IH; done.
Qed.

Lemma check_folder_spec folder headers (st : state E) r st' :
  check_folder E folder headers st = (r, st') ->
  exists new,
    trace st' = trace st ++ new /\
    selected new = polled [folder] /\
    ((self st' = self st /\ (r = inr headers \/ exists e, r = inl e) /\ forall cur, uid_reports cur new = [])
     \/
     (exists uid tagged,
        self st' = set_last_uid (<[folder := uid]> (last_uid (self st))) (self st) /\
        r = inr (headers ++ tagged) /\
        Forall (fun m => tag_of m = Some ("folder", folder)) tagged /\
        forall cur, uid_reports cur new = [(folder, uid)])).
Proof.
  unfold check_folder, polled. cbn [List.filter].
  destruct (Py.contains "[Gmail]" folder) eqn:Hg; cbn.
  - intros [= <- <-]. exists []. rewrite app_nil_r. split_and!; auto.
  - unfold bind, command, extern, get_self, ret, raise, lift, set_mark, modify_self. cbn.
    intros H.
    repeat case_match; simplify_eq; cbn in *.
    all: repeat match goal with r : response |- _ => destruct r end; cbn in *; subst.
    all: eexists; (split; [rewrite <- ?app_assoc; reflexivity|]); cbn.
    all: split; [reflexivity|].
    all: try (left; split_and!; [reflexivity| eauto | intros; cbn; repeat case_match; simplify_eq; done]).
    right. do 2 eexists. split_and!; try reflexivity.
    + apply Forall_map, Forall_forall. intros m _. unfold tag_of, setitem; cbn. apply last_snoc.
    + intros cur. repeat case_match; simplify_eq; done.
Qed.

Lemma only_marks_refl h : only_marks h h.
Proof. by destruct h. Qed.

Lemma only_marks_trans h1 h2 h3 :
  only_marks h1 h2 -> only_marks h2 h3 -> only_marks h1 h3.
Proof. unfold only_marks. intros -> ->. done. Qed.

Lemma marks_step_refl (st st' : state E) :
  self st' = self st -> marks_step st st' [].
Proof. intros H F. left. by rewrite H. Qed.

Lemma marks_step_trans (st1 st2 st3 : state E) a b :
  marks_step st1 st2 a -> marks_step st2 st3 b -> marks_step st1 st3 (a ++ b).
Proof.
  intros H1 H2 F. destruct (H2 F) as [Heq|(u & Hu & Hin)].
  - rewrite Heq. destruct (H1 F) as [?|(u & Hu & Hin)]; [by left|].
    right. exists u. split; [done|]. intros cur.
    rewrite uid_reports_app. apply in_or_app. left. apply Hin.
  - right. exists u. split; [done|]. intros cur.
    rewrite uid_reports_app. apply in_or_app. right. apply Hin.
Qed.

Lemma selected_app a b : selected (a ++ b) = selected a ++ selected b.
Proof.
  induction a as [|ev a IH]; [done|].
  destruct ev; cbn; try apply IH. destruct cl; cbn; rewrite ?IH; done.
Qed.

Lemma polled_cons f fs : polled (f :: fs) = polled [f] ++ polled fs.
Proof. unfold polled. cbn. by destruct (Py.contains _ _). Qed.

Lemma check_folder_marks folder headers (st : state E) r st' :
  check_folder E folder headers st = (r, st') ->
  exists new,
    trace st' = trace st ++ new /\ selected new = polled [folder] /\
    only_marks (self st) (self st') /\ marks_step st st' new.
Proof.
  intros H. apply check_folder_spec in H as (new & Ht & Hs & H).
  exists new. split_and!; try done.
  - destruct H as [(-> & _)|(uid & tg & -> & _)]; [apply only_marks_refl|].
    by destruct (self st).
  - destruct H as [(Hs' & _ & Hr)|(uid & tg & Hs' & _ & _ & Hr)]; intros F.
    + left. by rewrite Hs'.
    + rewrite Hs'. cbn. destruct (decide (folder = F)) as [->|Hne].
      * right. exists uid. rewrite lookup_insert_eq. split; [done|].
        intros cur. rewrite Hr. by left.
      * left. by rewrite lookup_insert_ne.
Qed.

Lemma for_fold_check_marks fs : forall headers (st : state E) r st',
  for_fold E (check_folder E) fs headers st = (r, st') ->
  exists new,
    trace st' = trace st ++ new /\
    (forall hs, r = inr hs -> selected new = polled fs) /\
    only_marks (self st) (self st') /\ marks_step st st' new.
Proof.
  induction fs as [|f fs IH]; intros headers st r st'; cbn [for_fold].
  - intros [= <- <-]. exists []. rewrite app_nil_r. split_and!; auto.
    + apply only_marks_refl.
    + by apply marks_step_refl.
  - unfold bind at 1.
    destruct (check_folder E f headers st) as [[e|hs1] st1] eqn:Hf;
      apply check_folder_marks in Hf as (a & Ha & Hsa & Hoa & Hma).
    + intros [= <- <-]. exists a. split_and!; done.
    + intros H. apply IH in H as (b & Hb & Hsb & Hob & Hmb).
      exists (a ++ b). split_and!.
      * by rewrite Hb, Ha, app_assoc.
      * intros hs Hr. rewrite selected_app, polled_cons, Hsa. f_equal. eauto.
      * eapply only_marks_trans; eauto.
      * eapply marks_step_trans; eauto.
Qed.
Lemma kept_refl h : kept h h.
Proof. by repeat split. Qed.

Lemma kept_trans h1 h2 h3 : kept h1 h2 -> kept h2 h3 -> kept h1 h3.
Proof. unfold kept. intuition congruence. Qed.

Lemma gss_kept_refl h : gss_kept h h.
Proof. by split. Qed.

Lemma gss_kept_trans h1 h2 h3 : gss_kept h1 h2 -> gss_kept h2 h3 -> gss_kept h1 h3.
Proof. unfold gss_kept. intros [A B] [C D]. split; eauto. Qed.

Lemma only_marks_kept h h' : only_marks h h' -> kept h h' /\ gss_kept h h' /\ imap h' = imap h.
Proof. unfold only_marks. intros ->. by repeat split. Qed.

Lemma off_folder_reports new :
  Forall off_folder new ->
  forall cur, uid_reports cur new = [] /\ selected new = [] /\ folder_after cur new = cur.
Proof.
  induction 1 as [|ev new Hev _ IH]; intros cur; [done|].
  destruct ev; cbn; try apply IH. destruct cl; cbn in *; try apply IH; done.
Qed.

Lemma gssauth_spec response (st : state E) r st' :
  gssauth E response st = (r, st') ->
  exists new,
    trace st' = trace st ++ new /\ Forall off_folder new /\
    kept (self st) (self st') /\ gss_kept (self st) (self st') /\
    last_uid (self st') = last_uid (self st) /\ imap (self st') = imap (self st).
Proof.
  unfold gssauth.
  unfold bind, extern, get_self, ret, raise, lift, modify_self. cbn.
  intros H.
  repeat case_match; simplify_eq; cbn in *.
  all: eexists; (split; [rewrite <- ?app_assoc; try reflexivity; by rewrite app_nil_r|]).
  all: split; [repeat constructor|].
  all: split_and!; try done; unfold GSS_STATE_WRAP, GSS_STATE_STEP in *; cbn; try lia; try congruence.
  all: split; cbn; [done|congruence].
Qed.

Lemma auth_loop_spec n : forall sent (st : state E) r st',
  auth_loop E n "GSSAPI" (gssauth E) sent st = (r, st') ->
  exists new,
    trace st' = trace st ++ new /\ Forall off_folder new /\
    kept (self st) (self st') /\ gss_kept (self st) (self st') /\
    last_uid (self st') = last_uid (self st) /\ imap (self st') = imap (self st).
Proof.
  induction n as [|n IH]; intros sent st r st'; cbn [auth_loop].
  - intros [= <- <-]. exists []. rewrite app_nil_r. split_and!; auto using kept_refl, gss_kept_refl.
  - unfold bind at 1 2. unfold get_self at 1. cbn.
    destruct (imap_auth E _ _ _ _).1 as [e|[chal|typ dat]] eqn:Ha; cbn.
    + intros [= <- <-]. eexists. split; [reflexivity|].
      split_and!; auto using kept_refl, gss_kept_refl. repeat constructor.
    + unfold bind at 1.
      match goal with |- context [gssauth E chal ?s] => destruct (gssauth E chal s) as [[e|ans] st1] eqn:Hg end;
      apply gssauth_spec in Hg as (a & Ha1 & Ha2 & Ha3 & Ha4 & Ha5 & Ha6); cbn in *.
      * intros [= <- <-]. eexists. split; [rewrite Ha1, <- app_assoc; reflexivity|].
        split_and!; auto. constructor; [done|auto].
      * intros H. apply IH in H as (b & Hb1 & Hb2 & Hb3 & Hb4 & Hb5 & Hb6).
        eexists. split; [rewrite Hb1, Ha1, <- !app_assoc; reflexivity|].
        split_and!.
        -- constructor; [done|]. apply Forall_app; auto.
        -- eapply kept_trans; eauto.
        -- eapply gss_kept_trans; eauto.
        -- congruence.
        -- congruence.
    + destruct (String.eqb typ "OK"); intros [= <- <-];
       (eexists; split; [reflexivity|]; split_and!; auto using kept_refl, gss_kept_refl; repeat constructor).
Qed.
Lemma command_spec cl (st : state E) :
  command E cl st =
  ((imap_call E (imap_conn (imap (self st))) cl (world st)).1,
   {| self := self st;
      world := (imap_call E (imap_conn (imap (self st))) cl (world st)).2;
      trace := trace st ++
               [ev_imap (imap_conn (imap (self st))) cl
                  (imap_call E (imap_conn (imap (self st))) cl (world st)).1] |}).
Proof. reflexivity. Qed.

Lemma get_folders_spec (st : state E) r st' :
  get_folders E st = (r, st') ->
  self st' = self st /\
  world st' = (imap_call E (imap_conn (imap (self st))) c_list (world st)).2 /\
  trace st' = trace st ++
              [ev_imap (imap_conn (imap (self st))) c_list
                 (imap_call E (imap_conn (imap (self st))) c_list (world st)).1].
Proof.
  unfold get_folders, bind. rewrite command_spec. unfold lift, get_self, ret.
  intros H. repeat case_match; simplify_eq; done.
Qed.

Lemma login_spec (st : state E) r st' :
  login E st = (r, st') ->
  exists new, trace st' = trace st ++ new /\ Forall off_folder new /\ self st' = self st.
Proof.
  unfold login, bind, get_self, raise, ret. intros H.
  repeat case_match; simplify_eq; try rewrite command_spec in *; simplify_eq; cbn.
  all: eexists; split; [try reflexivity; by rewrite app_nil_r|]; split; [repeat constructor|done].
Qed.

Lemma recover_spec e (st : state E) r st' :
  recover E rounds e st = (r, st') ->
  exists new,
    trace st' = trace st ++ new /\ Forall off_folder new /\
    kept (self st) (self st') /\ gss_kept (self st) (self st') /\
    last_uid (self st') = last_uid (self st).
Proof.
  unfold recover. unfold bind at 1. unfold lift at 1.
  destruct (reraised e) as [e1|[|]].
  - intros [= <- <-]. exists []. rewrite app_nil_r. split_and!; auto using kept_refl, gss_kept_refl.
  - intros [= <- <-]. exists []. rewrite app_nil_r. split_and!; auto using kept_refl, gss_kept_refl.
  - unfold bind at 1, get_self at 1. unfold new_IMAP4.
    unfold bind at 1 2. unfold extern at 1. cbn.
    destruct (imap_open E _ _ _ _).1 as [e1|c] eqn:Ho.
    + intros [= <- <-]. eexists. split; [reflexivity|].
      split_and!; auto using kept_refl, gss_kept_refl. repeat constructor.
    + unfold ret. cbn.
      destruct (gssapi (self st)) eqn:Hg.
      * unfold authenticate. intros H. apply auth_loop_spec in H as (b & Hb1 & Hb2 & Hb3 & Hb4 & Hb5 & Hb6).
        cbn in *. eexists. split; [rewrite Hb1, <- app_assoc; reflexivity|].
        split_and!; auto. constructor; [done|auto].
      * intros H. apply login_spec in H as (b & Hb1 & Hb2 & Hb3).
        cbn in *. eexists. split; [rewrite Hb1, <- app_assoc; reflexivity|].
        rewrite Hb3. cbn. split_and!; auto using kept_refl, gss_kept_refl.
        constructor; [done|auto].
        all: by repeat split.
Qed.

Lemma check_try_marks (st : state E) r st' :
  check_try E st = (r, st') ->
  exists new,
    trace st' = trace st ++ new /\
    only_marks (self st) (self st') /\ marks_step st st' new.
Proof.
  unfold check_try, bind.
  destruct (get_folders E st) as [[e|fs] st1] eqn:Hf;
    apply get_folders_spec in Hf as (Hs & Hw & Ht).
  - intros [= <- <-]. eexists. split; [done|]. rewrite Hs. split; [apply only_marks_refl|].
    intros F. left. by rewrite Hs.
  - intros H. apply for_fold_check_marks in H as (b & Hb1 & _ & Hb3 & Hb4).
    eexists. split; [rewrite Hb1, Ht, <- app_assoc; reflexivity|].
    rewrite <- Hs. split; [done|].
    apply (marks_step_trans st st1 st' [_] b); [|done].
    intros F. left. by rewrite Hs.
Qed.

Lemma marks_step_off (st st' : state E) new :
  last_uid (self st') = last_uid (self st) -> marks_step st st' new.
Proof. intros H F. left. by rewrite H. Qed.

Lemma check_marks depth : forall (st : state E) r st',
  check E rounds depth st = (r, st') ->
  exists new,
    trace st' = trace st ++ new /\ marks_step st st' new /\
    kept (self st) (self st') /\ gss_kept (self st) (self st').
Proof.
  induction depth as [|d IH]; intros st r st'; cbn [check];
    destruct (check_try E st) as [[e|hs] st1] eqn:Ht;
    apply check_try_marks in Ht as (a & Ha1 & Ha2 & Ha3);
    apply only_marks_kept in Ha2 as (Hk & Hg & Hi).
  all: try (intros [= <- <-]; exists a; split_and!; done).
  all: destruct (caught e); [|intros [= <- <-]; exists a; split_and!; done].
  all: destruct (recover E rounds e st1) as [[e2|[]] st2] eqn:Hr;
    apply recover_spec in Hr as (b & Hb1 & Hb2 & Hb3 & Hb4 & Hb5).
  all: try (intros [= <- <-]; exists (a ++ b); split_and!;
    [by rewrite Hb1, Ha1, app_assoc
    |eapply marks_step_trans; [done|by apply marks_step_off]
    |eapply kept_trans; eauto | eapply gss_kept_trans; eauto]).
  intros H. apply IH in H as (c & Hc1 & Hc2 & Hc3 & Hc4).
  exists (a ++ b ++ c). split_and!.
  - by rewrite Hc1, Hb1, Ha1, <- !app_assoc.
  - eapply marks_step_trans; [done|].
    eapply marks_step_trans; [by apply marks_step_off|done].
  - eauto using kept_trans.
  - eauto using gss_kept_trans.
Qed.
Lemma since_app (st st' : state E) new :
  trace st' = trace st ++ new -> since st st' = new.
Proof. unfold since. intros ->. by rewrite drop_app_length. Qed.


Lemma check_folder_quiet folder fs headers (st : state E) w' :
  quiet_pass E (imap_conn (imap (self st))) (last_uid (self st))
    (folder :: fs) (world st) = Some w' ->
  exists st1,
    check_folder E folder headers st = (inr headers, st1) /\
    self st1 = self st /\
    quiet_pass E (imap_conn (imap (self st))) (last_uid (self st)) fs
      (world st1) = Some w'.
Proof.
  cbn [quiet_pass]. unfold check_folder.
  destruct (Py.contains "[Gmail]" folder); [eauto|].
  unfold bind at 1. rewrite command_spec.
  destruct (imap_call E _ (c_select folder true) _).1 as [e|[typ [|n [|]]]];
    try done; cbn.
  destruct (String.eqb typ "NO"); [eauto|].
  unfold bind at 1, get_self at 1. cbn.
  destruct (last_uid (self st) !! folder) as [mark|]; [|done].
  unfold bind at 1. rewrite command_spec. cbn.
  destruct (imap_call E _ (c_search _ _) _).1 as [e|[t2 found]]; [done|]; cbn.
  destruct (is_all_read found); [eauto|done].
Qed.

Lemma for_fold_quiet fs : forall headers (st : state E) w',
  quiet_pass E (imap_conn (imap (self st))) (last_uid (self st)) fs
    (world st) = Some w' ->
  exists st',
    for_fold E (check_folder E) fs headers st = (inr headers, st') /\
    self st' = self st /\ world st' = w'.
Proof.
  induction fs as [|f fs IH]; intros headers st w' H.
  - cbn in H. injection H as <-. by exists st.
  - apply (check_folder_quiet _ _ headers) in H as (st1 & H1 & Hs & Hq).
    rewrite <- Hs in Hq. apply (IH headers) in Hq as (st' & H2 & Hs' & Hw).
    exists st'. cbn [for_fold]. unfold bind. rewrite H1. split_and!; congruence.
Qed.



(** C3: when the server has nothing new above the mark of any folder the
    listing yields, [check] returns the empty list and leaves the handler,
    its marks included, as it was. *)
Theorem check_nothing_new depth (st : state E) fs stg w' :
  get_folders E st = (inr fs, stg) ->
  quiet_pass E (imap_conn (imap (self st))) (last_uid (self st)) fs
    (world stg) = Some w' ->
  exists st',
    check E rounds depth st = (inr [], st') /\
    last_uid (self st') = last_uid (self st) /\
    self st' = self st /\ world st' = w'.
Proof.
  intros Hf Hq.
  pose proof (get_folders_spec _ _ _ Hf) as (Hs & _ & _).
  rewrite <- Hs in Hq.
  apply (for_fold_quiet _ []) in Hq as (st' & Hrun & Hs' & Hw).
  exists st'.
  assert (check_try E st = (inr [], st')) as Ht.
  { unfold check_try, bind. by rewrite Hf. }
  split_and!; try congruence.
  destruct depth; cbn [check]; by rewrite Ht.
Qed.

Lemma recover_opens e (st : state E) r st' :
  reraised e = inr false ->
  recover E rounds e st = (r, st') ->
  exists ro rest,
    trace st' = trace st ++
      ev_open (imap_ssl (imap (self st))) (server (self st))
              (default_port (imap_ssl (imap (self st)))) ro :: rest /\
    (r = inr tt ->
     imap_port (imap (self st')) = default_port (imap_ssl (imap (self st))) /\
     imap_host (imap (self st')) = server (self st)).
Proof.
  intros He. unfold recover. unfold bind at 1. unfold lift at 1. rewrite He.
  unfold bind at 1, get_self at 1. unfold new_IMAP4.
  unfold bind at 1 2. unfold extern at 1. cbn.
  destruct (imap_open E _ _ _ _).1 as [e1|c] eqn:Ho.
  - intros [= <- <-]. cbn. do 2 eexists. split; [reflexivity|done].
  - unfold ret. cbn. destruct (gssapi (self st)).
    + unfold authenticate. intros H.
      apply auth_loop_spec in H as (b & Hb1 & _ & _ & _ & _ & Hb6).
      cbn in *. do 2 eexists. split; [rewrite Hb1, <- app_assoc; reflexivity|].
      intros _. by rewrite Hb6.
    + intros H. apply login_spec in H as (b & Hb1 & _ & Hb3).
      cbn in *. do 2 eexists. split; [rewrite Hb1, <- app_assoc; reflexivity|].
      intros _. by rewrite Hb3.
Qed.

Lemma check_unfold depth (st : state E) :
  check E rounds depth st =
  match check_try E st with
  | (inr headers, st1) => (inr headers, st1)
  | (inl e, st1) =>
      if caught e then
        match recover E rounds e st1 with
        | (inr _, st2) =>
            match depth with
            | O => (inl RuntimeError, st2)
            | S d => check E rounds d st2
            end
        | (inl e', st2) => (inl e', st2)
        end
      else (inl e, st1)
  end.
Proof. by destruct depth. Qed.

Lemma check_after_recover depth (st : state E) e st1 :
  check_try E st = (inl e, st1) ->
  caught e = true ->
  exists r2 st2 tail,
    recover E rounds e st1 = (r2, st2) /\
    trace (snd (check E rounds depth st)) = trace st2 ++ tail.
Proof.
  intros Ht Hc. rewrite check_unfold, Ht, Hc.
  destruct (recover E rounds e st1) as [[e2|[]] st2] eqn:Hr.
  - exists (inl e2), st2, []. by rewrite app_nil_r.
  - destruct depth as [|d].
    + exists (inr tt), st2, []. by rewrite app_nil_r.
    + destruct (check E rounds d st2) as [r3 st3] eqn:Hk.
      apply check_marks in Hk as (c & Hc1 & _). by exists (inr tt), st2, c.
Qed.


(** An [sslerror] without arguments: reading [e[0]] raises [IndexError],
    which leaves [check]; no recovery is started. *)
Lemma check_sslerror_no_args depth (st : state E) st1 :
  check_try E st = (inl (sslerror []), st1) ->
  check E rounds depth st = (inl IndexError, st1).
Proof. intros Ht. by rewrite check_unfold, Ht. Qed.

(** C9: the session opened by the recovery path is opened on the default
    port of its class, whatever port the handler was configured with; with
    a configured port other than that default, the reconnection goes to a
    different port than the first connection did. *)
Theorem recovery_ignores_port depth (st : state E) e st1 :
  check_try E st = (inl e, st1) ->
  caught e = true ->
  reraised e = inr false ->
  port (self st) <> default_port (imap_ssl (imap (self st))) ->
  exists q ro rest,
    since st1 (snd (check E rounds depth st)) =
      ev_open (imap_ssl (imap (self st))) (server (self st)) q ro :: rest /\
    q = default_port (imap_ssl (imap (self st))) /\
    q <> port (self st) /\
    (forall st2, recover E rounds e st1 = (inr tt, st2) ->
                 imap_port (imap (self st2)) = q).
Proof.
  intros Ht Hc Hr Hp.
  pose proof (check_try_marks _ _ _ Ht) as (_ & _ & Hom & _).
  apply only_marks_kept in Hom as ((Hsrv & _ & _ & _ & _ & _ & _ & Hssl) & _ & _).
  destruct (check_after_recover depth st e st1 Ht Hc)
    as (r2 & st2 & tail & Hrec & Htr).
  pose proof (recover_opens _ _ _ _ Hr Hrec) as (ro & rest & Hro & _).
  rewrite Hsrv, Hssl in Hro.
  exists (default_port (imap_ssl (imap (self st)))), ro, (rest ++ tail).
  split_and!; try done.
  - apply since_app. by rewrite Htr, Hro, <- app_assoc.
  - intros st2' Hrec'.
    apply (recover_opens _ _ _ _ Hr) in Hrec' as (_ & _ & _ & Hport).
    destruct (Hport eq_refl) as [-> _]. by rewrite Hssl.
Qed.
Lemma gssauth_wrap_first response (st : state E) r st' :
  HAVE_KERBEROS_GSS E = true ->
  gss_step (self st) = GSS_STATE_WRAP ->
  gssauth E response st = (r, st') ->
  exists ro rest,
    trace st' = trace st ++
      ev_krb_unwrap (gss_vc (self st)) (b64encode E response) ro :: rest.
Proof.
  intros Hh Hw. unfold gssauth. rewrite Hh. cbn [negb].
  unfold bind at 1, get_self at 1. rewrite Hw. cbn [Z.eqb GSS_STATE_WRAP GSS_STATE_STEP Pos.eqb].
  unfold bind, extern, get_self, ret, raise, lift, modify_self. cbn.
  intros H.
  repeat case_match; simplify_eq; cbn.
  all: do 2 eexists; rewrite <- ?app_assoc; cbn; reflexivity.
Qed.

Lemma recover_gss_trace e (st : state E) r st' vc c chal :
  reraised e = inr false ->
  gssapi (self st) = true ->
  gss_step (self st) = GSS_STATE_WRAP ->
  gss_vc (self st) = Some vc ->
  HAVE_KERBEROS_GSS E = true ->
  rounds <> O ->
  fst (imap_open E (imap_ssl (imap (self st))) (server (self st))
         (default_port (imap_ssl (imap (self st)))) (world st)) = inr c ->
  fst (imap_auth E c "GSSAPI" None
         (snd (imap_open E (imap_ssl (imap (self st))) (server (self st))
                 (default_port (imap_ssl (imap (self st)))) (world st))))
    = inr (Continue chal) ->
  recover E rounds e st = (r, st') ->
  exists ro rest,
    trace st' = trace st ++
      ev_open (imap_ssl (imap (self st))) (server (self st))
              (default_port (imap_ssl (imap (self st)))) (inr c) ::
      ev_auth c "GSSAPI" None (inr (Continue chal)) ::
      ev_krb_unwrap (Some vc) (b64encode E chal) ro :: rest.
Proof.
  intros He Hg Hw Hvc Hh Hn Ho Ha.
  unfold recover. unfold bind at 1. unfold lift at 1. rewrite He.
  unfold bind at 1, get_self at 1. unfold new_IMAP4.
  unfold bind at 1 2. unfold extern at 1. cbn. rewrite Ho. unfold ret. cbn.
  rewrite Hg. unfold authenticate.
  destruct rounds as [|n]; [done|]. cbn [auth_loop].
  unfold bind at 1, get_self at 1. cbn.
  rewrite Ha.
  unfold bind at 1.
  match goal with |- context [gssauth E chal ?s] =>
    destruct (gssauth E chal s) as [[e1|ans] st1] eqn:Hga end;
    (apply gssauth_wrap_first in Hga as (ro & rest & Htr); [|done|exact Hw]);
    cbn in Htr; rewrite Hvc in Htr.
  - intros [= <- <-]. exists ro, rest. rewrite Htr, <- !app_assoc. reflexivity.
  - intros H. apply auth_loop_spec in H as (b & Hb & _).
    exists ro, (rest ++ b). rewrite Hb, Htr, <- !app_assoc. reflexivity.
Qed.

(** C10: nothing resets the state machine of [gssauth].  When a check
    fails with a caught exception on a handler that authenticated with
    GSSAPI and was left in state WRAP with context [vc], the recovery path
    reconnects, and the first challenge of the new exchange is answered by
    unwrapping it in the old context [vc]: no context is initialised, no
    step is taken.  The handler is still in state WRAP with context [vc]
    when [check] ends. *)
Theorem recovery_reuses_gss_state depth (st : state E) e st1 vc c chal :
  check_try E st = (inl e, st1) ->
  caught e = true ->
  reraised e = inr false ->
  gssapi (self st) = true ->
  gss_step (self st) = GSS_STATE_WRAP ->
  gss_vc (self st) = Some vc ->
  HAVE_KERBEROS_GSS E = true ->
  rounds <> O ->
  fst (imap_open E (imap_ssl (imap (self st))) (server (self st))
         (default_port (imap_ssl (imap (self st)))) (world st1)) = inr c ->
  fst (imap_auth E c "GSSAPI" None
         (snd (imap_open E (imap_ssl (imap (self st))) (server (self st))
                 (default_port (imap_ssl (imap (self st)))) (world st1))))
    = inr (Continue chal) ->
  (exists ro rest,
     since st1 (snd (check E rounds depth st)) =
       ev_open (imap_ssl (imap (self st))) (server (self st))
               (default_port (imap_ssl (imap (self st)))) (inr c) ::
       ev_auth c "GSSAPI" None (inr (Continue chal)) ::
       ev_krb_unwrap (Some vc) (b64encode E chal) ro :: rest) /\
  gss_step (self (snd (check E rounds depth st))) = GSS_STATE_WRAP /\
  gss_vc (self (snd (check E rounds depth st))) = Some vc.
Proof.
  intros Ht Hc Hr Hg Hw Hvc Hh Hn Ho Ha.
  pose proof (check_try_marks _ _ _ Ht) as (_ & _ & Hom & _).
  apply only_marks_kept in Hom
    as ((Hsrv & _ & Hgs & _ & _ & _ & _ & Hssl) & (Hk1 & Hk2) & _).
  split.
  - destruct (check_after_recover depth st e st1 Ht Hc)
      as (r2 & st2 & tail & Hrec & Htr).
    rewrite <- Hsrv, <- Hssl in Ho, Ha |- *.
    assert (gssapi (self st1) = true) as Hg1 by congruence.
    destruct (recover_gss_trace e st1 r2 st2 vc c chal Hr Hg1 (Hk1 Hw)
                (Hk2 vc Hvc) Hh Hn Ho Ha Hrec) as (ro & rest & Hro).
    exists ro, (rest ++ tail). apply since_app.
    rewrite Htr, Hro, <- app_assoc. reflexivity.
  - destruct (check E rounds depth st) as [r st'] eqn:Hk.
    apply check_marks in Hk as (_ & _ & _ & _ & Hg1 & Hg2). cbn. eauto.
Qed.

(** Across [check], recovery included, the state machine never goes back
    to STEP and never changes context. *)
Lemma check_never_resets_gss depth (st : state E) vc :
  gss_step (self st) = GSS_STATE_WRAP ->
  gss_vc (self st) = Some vc ->
  gss_step (self (snd (check E rounds depth st))) = GSS_STATE_WRAP /\
  gss_vc (self (snd (check E rounds depth st))) = Some vc.
Proof.
  intros Hw Hvc. destruct (check E rounds depth st) as [r st'] eqn:Hk.
  apply check_marks in Hk as (_ & _ & _ & _ & Hg1 & Hg2). cbn. eauto.
Qed.
Lemma for_each_app {A : Type} (body : A -> M E unit) a b (st : state E) :
  for_each E body (a ++ b) st =
  match for_each E body a st with
  | (inr _, st1) => for_each E body b st1
  | (inl e, st1) => (inl e, st1)
  end.
Proof.
  revert st. induction a as [|x a IH]; intros st; [done|].
  cbn [for_each app]. unfold bind.
  destruct (body x st) as [[e|[]] st1]; [done|]. apply IH.
Qed.

Lemma for_fold_app {A B : Type} (body : A -> B -> M E B) a b acc (st : state E) :
  for_fold E body (a ++ b) acc st =
  match for_fold E body a acc st with
  | (inr acc1, st1) => for_fold E body b acc1 st1
  | (inl e, st1) => (inl e, st1)
  end.
Proof.
  revert acc st. induction a as [|x a IH]; intros acc st; [done|].
  cbn [for_fold app]. unfold bind.
  destruct (body x acc st) as [[e|acc1] st1]; [done|]. apply IH.
Qed.

Lemma set_last_uids_folder_spec folder (st : state E) r st' :
  set_last_uids_folder E folder st = (r, st') ->
  exists new,
    trace st' = trace st ++ new /\ selected new = polled [folder] /\
    only_marks (self st) (self st') /\
    (forall other, other <> folder ->
       last_uid (self st') !! other = last_uid (self st) !! other).
Proof.
  unfold set_last_uids_folder, polled. cbn [List.filter].
  destruct (Py.contains "[Gmail]" folder) eqn:Hg; cbn.
  - intros [= <- <-]. exists []. rewrite app_nil_r. split_and!; auto.
    apply only_marks_refl.
  - unfold bind, command, extern, get_self, ret, raise, lift, set_mark, modify_self. cbn.
    intros H.
    repeat case_match; simplify_eq; cbn in *.
    all: eexists; (split; [rewrite <- ?app_assoc; reflexivity|]); cbn.
    all: split; [reflexivity|].
    all: split; [by destruct (self st)|].
    all: intros other Hne; cbn; by rewrite ?lookup_insert_ne.
Qed.

Lemma set_last_uids_loop_spec fs : forall (st : state E) r st',
  for_each E (set_last_uids_folder E) fs st = (r, st') ->
  exists new,
    trace st' = trace st ++ new /\
    (r = inr tt -> selected new = polled fs) /\
    only_marks (self st) (self st') /\
    (forall other, ~ In other fs ->
       last_uid (self st') !! other = last_uid (self st) !! other).
Proof.
  induction fs as [|f fs IH]; intros st r st'; cbn [for_each].
  - intros [= <- <-]. exists []. rewrite app_nil_r. split_and!; auto.
    apply only_marks_refl.
  - unfold bind at 1.
    destruct (set_last_uids_folder E f st) as [[e|[]] st1] eqn:Hf;
      apply set_last_uids_folder_spec in Hf as (a & Ha & Hsa & Hoa & Hfa).
    + intros [= <- <-]. exists a. split_and!; try done.
      intros other Hn. apply Hfa. intros ->. apply Hn. by left.
    + intros H. apply IH in H as (b & Hb & Hsb & Hob & Hfb).
      exists (a ++ b). split_and!.
      * by rewrite Hb, Ha, app_assoc.
      * intros Hr. rewrite selected_app, polled_cons, Hsa. f_equal. eauto.
      * eapply only_marks_trans; eauto.
      * intros other Hn. rewrite Hfb, Hfa; [done| |].
        -- intros ->. apply Hn. by left.
        -- intros Hin. apply Hn. by right.
Qed.

Lemma set_last_uids_unfold (st : state E) fs stg :
  get_folders E (cleared st) = (inr fs, stg) ->
  set_last_uids E st = for_each E (set_last_uids_folder E) fs stg.
Proof.
  intros H. unfold set_last_uids, bind, modify_self.
  fold (cleared st). by rewrite H.
Qed.


(** A folder the server refuses to open is passed over: no mark, no
    exception. *)
Lemma set_last_uids_folder_refused folder (st : state E) data :
  fst (imap_call E (imap_conn (imap (self st))) (c_select folder true)
         (world st)) = inr ("NO", data) ->
  exists st',
    set_last_uids_folder E folder st = (inr tt, st') /\ self st' = self st.
Proof.
  intros Hsel. unfold set_last_uids_folder.
  destruct (Py.contains "[Gmail]" folder); [by exists st|].
  unfold bind at 1. rewrite command_spec, Hsel. cbn. eauto.
Qed.

(** C7: when the answer to the fetch of a folder's last UID does not match
    the UID pattern, [set_last_uids] raises [AttributeError] (the failed
    search has no [group]): the call ends there, with no mark for that
    folder and nothing asked about the folders after it. *)
Theorem set_last_uids_malformed_uid (st : state E) pre folder post stg st1
  typ d0 rest t2 txt r2 :
  get_folders E (cleared st) = (inr (pre ++ folder :: post), stg) ->
  for_each E (set_last_uids_folder E) pre stg = (inr tt, st1) ->
  Py.contains "[Gmail]" folder = false ->
  fst (imap_call E (imap_conn (imap (self st))) (c_select folder true)
         (world st1)) = inr (typ, d0 :: rest) ->
  typ <> "NO" ->
  item_is "0" d0 = false ->
  fst (imap_call E (imap_conn (imap (self st))) (c_fetch d0 "UID")
         (snd (imap_call E (imap_conn (imap (self st)))
                 (c_select folder true) (world st1))))
    = inr (t2, IStr txt :: r2) ->
  Re.search_groups false uid_re txt = None ->
  exists st',
    set_last_uids E st = (inl AttributeError, st') /\
    self st' = self st1 /\
    trace st' = trace st1 ++
      [ ev_imap (imap_conn (imap (self st))) (c_select folder true)
          (inr (typ, d0 :: rest));
        ev_imap (imap_conn (imap (self st))) (c_fetch d0 "UID")
          (inr (t2, IStr txt :: r2)) ].
Proof.
  intros Hf Hpre Hg Hsel Hno H0 Hfetch Hbad.
  rewrite (set_last_uids_unfold _ _ _ Hf), for_each_app, Hpre.
  cbn [for_each]. unfold bind at 1.
  assert (imap (self st1) = imap (self st)) as Hi.
  { pose proof (get_folders_spec _ _ _ Hf) as (Hs & _).
    apply set_last_uids_loop_spec in Hpre as (_ & _ & _ & Hom & _).
    apply only_marks_kept in Hom as (_ & _ & ->). by rewrite Hs. }
  rewrite <- Hi in *.
  unfold set_last_uids_folder. rewrite Hg.
  unfold bind at 1. rewrite command_spec, Hsel. cbn.
  apply String.eqb_neq in Hno. rewrite Hno, H0.
  unfold bind at 1. rewrite command_spec. cbn. rewrite Hfetch. cbn.
  unfold bind, lift. cbn. rewrite Hbad.
  eexists. split; [reflexivity|]. cbn. by rewrite <- app_assoc.
Qed.

(** C8: [check] reads [self.last_uid[folder]] for every folder the server
    opens.  When that folder has no mark (the server refused to open it
    when the marks were set, or it did not exist then), the read raises
    [KeyError], which nothing catches: [check] ends with it, after the
    select and before any search. *)
Theorem check_missing_mark depth (st : state E) pre folder post stg hs st1
  typ nmesgs :
  get_folders E st = (inr (pre ++ folder :: post), stg) ->
  for_fold E (check_folder E) pre [] stg = (inr hs, st1) ->
  Py.contains "[Gmail]" folder = false ->
  last_uid (self st1) !! folder = None ->
  fst (imap_call E (imap_conn (imap (self st))) (c_select folder true)
         (world st1)) = inr (typ, [nmesgs]) ->
  typ <> "NO" ->
  exists st2,
    check E rounds depth st = (inl (KeyError folder), st2) /\
    self st2 = self st1 /\
    trace st2 = trace st1 ++
      [ ev_imap (imap_conn (imap (self st))) (c_select folder true)
          (inr (typ, [nmesgs])) ].
Proof.
  intros Hf Hpre Hg Hnone Hsel Hno.
  assert (imap (self st1) = imap (self st)) as Hi.
  { pose proof (get_folders_spec _ _ _ Hf) as (Hs & _).
    apply for_fold_check_marks in Hpre as (_ & _ & _ & Hom & _).
    apply only_marks_kept in Hom as (_ & _ & ->). by rewrite Hs. }
  rewrite <- Hi in *.
  assert (exists st2,
            check_try E st = (inl (KeyError folder), st2) /\
            self st2 = self st1 /\
            trace st2 = trace st1 ++
              [ev_imap (imap_conn (imap (self st1))) (c_select folder true)
                 (inr (typ, [nmesgs]))]) as (st2 & Ht & Hs2 & Htr).
  { unfold check_try. unfold bind at 1. rewrite Hf, for_fold_app, Hpre.
    cbn [for_fold]. unfold bind at 1.
    unfold check_folder. rewrite Hg.
    unfold bind at 1. rewrite command_spec, Hsel. cbn.
    apply String.eqb_neq in Hno. rewrite Hno.
    unfold bind at 1, get_self at 1. cbn. rewrite Hnone. cbn.
    eexists. split; [reflexivity|]. done. }
  exists st2. split; [|done].
  rewrite check_unfold, Ht. done.
Qed.

(** The way into C8 from construction: a folder, listed once, that the
    server refuses to open while the marks are set has no mark
    afterwards. *)
Lemma set_last_uids_refused_no_mark (st : state E) pre folder post stg st1
  data st' :
  get_folders E (cleared st) = (inr (pre ++ folder :: post), stg) ->
  for_each E (set_last_uids_folder E) pre stg = (inr tt, st1) ->
  ~ In folder pre -> ~ In folder post ->
  fst (imap_call E (imap_conn (imap (self st))) (c_select folder true)
         (world st1)) = inr ("NO", data) ->
  set_last_uids E st = (inr tt, st') ->
  last_uid (self st') !! folder = None.
Proof.
  intros Hf Hpre Hn1 Hn2 Hsel Hrun.
  rewrite (set_last_uids_unfold _ _ _ Hf), for_each_app, Hpre in Hrun.
  cbn [for_each] in Hrun. unfold bind at 1 in Hrun.
  pose proof (get_folders_spec _ _ _ Hf) as (Hs & _).
  pose proof (set_last_uids_loop_spec _ _ _ _ Hpre) as (_ & _ & _ & Hom & Hfr).
  assert (imap (self st1) = imap (self st)) as Hi.
  { apply only_marks_kept in Hom as (_ & _ & ->). by rewrite Hs. }
  rewrite <- Hi in Hsel.
  destruct (set_last_uids_folder_refused folder st1 data Hsel) as (st2 & Hstep & Hs2).
  rewrite Hstep in Hrun.
  apply set_last_uids_loop_spec in Hrun as (_ & _ & _ & _ & Hframe).
  rewrite (Hframe folder Hn2), Hs2, (Hfr folder Hn1), Hs. cbn.
  apply lookup_empty.
Qed.
Lemma for_fold_check_selected fs : forall headers (st : state E) r st',
  for_fold E (check_folder E) fs headers st = (r, st') ->
  selected (since st st') `prefix_of` polled fs /\
  (forall hs, r = inr hs -> selected (since st st') = polled fs).
Proof.
  induction fs as [|f fs IH]; intros headers st r st'; cbn [for_fold].
  - intros [= <- <-]. unfold since. rewrite drop_all. done.
  - unfold bind at 1.
    destruct (check_folder E f headers st) as [[e|hs1] st1] eqn:Hf;
      apply check_folder_marks in Hf as (a & Ha & Hsa & _).
    + intros [= <- <-]. rewrite (since_app _ _ _ Ha), Hsa, (polled_cons f fs).
      split; [by apply prefix_app_r|done].
    + intros H. pose proof (for_fold_check_marks _ _ _ _ _ H) as (b & Hb & _).
      apply IH in H as [Hp He].
      rewrite (since_app _ _ _ Hb) in Hp, He.
      assert (trace st' = trace st ++ a ++ b) as Hab
        by (by rewrite Hb, Ha, app_assoc).
      rewrite (since_app _ _ _ Hab), selected_app, Hsa, (polled_cons f fs).
      split; [by apply prefix_app|]. intros hs Hr. f_equal. eauto.
Qed.

Lemma set_last_uids_loop_selected fs : forall (st : state E) r st',
  for_each E (set_last_uids_folder E) fs st = (r, st') ->
  selected (since st st') `prefix_of` polled fs /\
  (r = inr tt -> selected (since st st') = polled fs).
Proof.
  induction fs as [|f fs IH]; intros st r st'; cbn [for_each].
  - intros [= <- <-]. unfold since. rewrite drop_all. done.
  - unfold bind at 1.
    destruct (set_last_uids_folder E f st) as [[e|[]] st1] eqn:Hf;
      apply set_last_uids_folder_spec in Hf as (a & Ha & Hsa & _).
    + intros [= <- <-]. rewrite (since_app _ _ _ Ha), Hsa, (polled_cons f fs).
      split; [by apply prefix_app_r|done].
    + intros H. pose proof (set_last_uids_loop_spec _ _ _ _ H) as (b & Hb & _).
      apply IH in H as [Hp He].
      rewrite (since_app _ _ _ Hb) in Hp, He.
      assert (trace st' = trace st ++ a ++ b) as Hab
        by (by rewrite Hb, Ha, app_assoc).
      rewrite (since_app _ _ _ Hab), selected_app, Hsa, (polled_cons f fs).
      split; [by apply prefix_app|]. intros Hr. f_equal. eauto.
Qed.

Lemma since_after_listing (st stg st' : state E) :
  trace stg = trace st ++
    [ev_imap (imap_conn (imap (self st))) c_list
       (imap_call E (imap_conn (imap (self st))) c_list (world st)).1] ->
  (exists b, trace st' = trace stg ++ b) ->
  selected (since st st') = selected (since stg st').
Proof.
  intros Hg [b Hb].
  rewrite (since_app _ _ _ Hb).
  assert (trace st' = trace st ++ [ev_imap (imap_conn (imap (self st))) c_list
       (imap_call E (imap_conn (imap (self st))) c_list (world st)).1] ++ b) as H
    by (by rewrite Hb, Hg, <- app_assoc).
  rewrite (since_app _ _ _ H). done.
Qed.

(** C5: with the include pattern [.*] and the exclude pattern [^Work$], on
    a listing whose canonical names are INBOX, INBOX/Archive,
    [Gmail]/All Mail and Work, [get_folders] drops Work, and the loops of
    [check] and [set_last_uids] open INBOX and INBOX/Archive and nothing
    else: the [Gmail] folder passes the filter and is skipped by the
    loops. *)
Theorem gmail_and_work_not_polled (st : state E) listing ms :
  re_agrees E ->
  include (self st) = ".*" ->
  exclude (self st) = "^Work$" ->
  fst (imap_call E (imap_conn (imap (self st))) c_list (world st))
    = inr listing ->
  map_result folder_groups (snd listing) = inr ms ->
  map canonical ms = ["INBOX"; "INBOX/Archive"; "[Gmail]/All Mail"; "Work"] ->
  fst (get_folders E st) = inr ["INBOX"; "INBOX/Archive"; "[Gmail]/All Mail"] /\
  (forall r st', check_try E st = (r, st') ->
     selected (since st st') `prefix_of` ["INBOX"; "INBOX/Archive"] /\
     (forall hs, r = inr hs ->
        selected (since st st') = ["INBOX"; "INBOX/Archive"])) /\
  (forall r st', set_last_uids E st = (r, st') ->
     selected (since st st') `prefix_of` ["INBOX"; "INBOX/Archive"] /\
     (r = inr tt -> selected (since st st') = ["INBOX"; "INBOX/Archive"])).
Proof.
  intros Hre Hinc Hexc Hlist Hms Hcan.
  assert (forall s : state E,
            self s = self st \/ self s = set_last_uid ∅ (self st) ->
            world s = world st ->
            exists stg,
              get_folders E s =
                (inr ["INBOX"; "INBOX/Archive"; "[Gmail]/All Mail"], stg) /\
              trace stg = trace s ++
                [ev_imap (imap_conn (imap (self s))) c_list
                   (imap_call E (imap_conn (imap (self s))) c_list (world s)).1])
    as Hget.
  { intros s Hs Hw.
    assert (imap (self s) = imap (self st) /\ include (self s) = ".*" /\
            exclude (self s) = "^Work$") as (Hi & Hi1 & Hi2).
    { destruct Hs as [->| ->]; done. }
    unfold get_folders. unfold bind at 1. rewrite command_spec.
    rewrite Hi, Hw, Hlist. cbn [fst snd].
    unfold bind at 1, lift at 1. rewrite Hms.
    unfold bind, get_self, ret. cbn [self world trace fst snd].
    rewrite Hcan, Hi1, Hi2. cbn [List.filter].
    rewrite !(Hre ".*" [Re.Star Re.Dot]) by reflexivity.
    rewrite !(Hre "^Work$" (Re.Bol :: Re.lit "Work" ++ [Re.Eol])) by reflexivity.
    eexists. split.
    { apply (f_equal2 pair); [vm_compute; reflexivity|reflexivity]. }
    done. }
  split_and!.
  - destruct (Hget st) as (stg & -> & _); auto.
  - intros r st' Hrun. destruct (Hget st) as (stg & Hg & Htr); auto.
    unfold check_try, bind in Hrun. rewrite Hg in Hrun.
    pose proof (for_fold_check_marks _ _ _ _ _ Hrun) as (b & Hb & _).
    rewrite (since_after_listing st stg st' Htr (ex_intro _ b Hb)).
    by apply for_fold_check_selected in Hrun.
  - intros r st' Hrun. destruct (Hget (cleared st)) as (stg & Hg & Htr); auto.
    rewrite (set_last_uids_unfold _ _ _ Hg) in Hrun.
    pose proof (set_last_uids_loop_spec _ _ _ _ Hrun) as (b & Hb & _).
    rewrite (since_after_listing st stg st' Htr (ex_intro _ b Hb)).
    by apply set_last_uids_loop_selected in Hrun.
Qed.
(** The laws of the monad of methods. *)
Lemma bind_ret_l {A B : Type} (a : A) (f : A -> M E B) (st : state E) :
  bind E (ret E a) f st = f a st.
Proof. reflexivity. Qed.

Lemma bind_ret_r {A : Type} (m : M E A) (st : state E) :
  bind E m (ret E) st = m st.
Proof. unfold bind, ret. by destruct (m st) as [[e|a] st1]. Qed.

Lemma bind_assoc {A B C : Type} (m : M E A) (f : A -> M E B)
  (g : B -> M E C) (st : state E) :
  bind E (bind E m f) g st = bind E m (fun a => bind E (f a) g) st.
Proof. unfold bind. by destruct (m st) as [[e|a] st1]. Qed.

(** An exception ends the method: what follows a [raise] is not run. *)
Lemma bind_raise {A B : Type} (e : exn) (f : A -> M E B) (st : state E) :
  bind E (raise E e) f st = (inl e, st).
Proof. reflexivity. Qed.

Lemma set_last_uids_spec (st : state E) r st' :
  set_last_uids E st = (r, st') ->
  exists new, trace st' = trace st ++ new /\
              kept (self st) (self st') /\ imap (self st') = imap (self st).
Proof.
  unfold set_last_uids, bind, modify_self. fold (cleared st).
  destruct (get_folders E (cleared st)) as [[e|fs] stg] eqn:Hf;
    apply get_folders_spec in Hf as (Hs & _ & Ht).
  - intros [= <- <-]. eexists. split; [exact Ht|]. rewrite Hs. by repeat split.
  - intros H. apply set_last_uids_loop_spec in H as (b & Hb & _ & Hom & _).
    apply only_marks_kept in Hom as (Hk & _ & Hi).
    eexists. split; [rewrite Hb, Ht, <- app_assoc; reflexivity|].
    rewrite Hs in Hk, Hi. split; [|done].
    eapply kept_trans; [|exact Hk]. by repeat split.
Qed.

Lemma chars_str l : Py.chars (Py.str l) = l.
Proof. apply list_ascii_of_string_of_list_ascii. Qed.

Lemma greedy_digits rest post : forall ds g,
  Forall (fun a => Re.is_digit a = true) ds ->
  (forall g', rest false (")"%char :: post) [g'] = Some [rev g']) ->
  forall bol, (ds = [] -> bol = false) ->
  Re.greedy false Re.Digit rest (ds ++ ")"%char :: post) bol [g]
  = Some [rev g ++ ds].
Proof.
  induction ds as [|d ds IH]; intros g Hd Hrest bol Hb.
  - cbn. rewrite (Hb eq_refl), Hrest. by rewrite app_nil_r.
  - inversion Hd as [|? ? Hd1 Hd2]; subst.
    cbn [app Re.greedy Re.accepts]. rewrite Hd1. cbn [Re.push map].
    rewrite (IH (d :: g) Hd2 Hrest false (fun _ => eq_refl)).
    cbn [rev]. by rewrite <- app_assoc.
Qed.

Lemma uid_run ds post bol :
  ds <> [] ->
  Forall (fun a => Re.is_digit a = true) ds ->
  Re.run false uid_re bol (Py.chars "(UID " ++ ds ++ ")"%char :: post) [] []
  = Some [ds].
Proof.
  intros Hne Hd. destruct ds as [|d ds]; [done|].
  inversion Hd as [|? ? Hd1 Hd2]; subst.
  unfold uid_re, Re.lit.
  cbn [Py.chars list_ascii_of_string app map Re.run Re.accepts Py.ascii_eqb
       Ascii.eqb Bool.eqb Re.push].
  rewrite Hd1.
  apply (greedy_digits _ post ds [d] Hd2); [|done].
  intros g'. cbn. done.
Qed.

Lemma uid_search_skips rest : forall pre bol,
  Forall (fun a => a <> "("%char) pre ->
  Re.search_from false uid_re bol (pre ++ "("%char :: rest) =
  Re.search_from false uid_re (bol && bool_decide (pre = []))
    ("("%char :: rest).
Proof.
  induction pre as [|a pre IH]; intros bol Hp.
  - cbn [app]. by rewrite andb_true_r.
  - inversion Hp as [|? ? Ha Hp']; subst.
    cbn [app Re.search_from].
    assert (Re.run false uid_re bol (a :: pre ++ "("%char :: rest) [] [] = None) as ->.
    { unfold uid_re. cbn. unfold Py.ascii_eqb.
      by destruct (Ascii.eqb_spec a "("%char). }
    rewrite (IH false Hp'). by rewrite andb_false_r.
Qed.

(** X2: reading a UID envelope: for any digits [ds], the text [(UID ds)], after
    a prefix without parenthesis and before anything, parses to the number
    [ds] denotes. *)
Lemma parse_uid_envelope pre ds post :
  Forall (fun a => a <> "("%char) pre ->
  ds <> [] ->
  Forall (fun a => Re.is_digit a = true) ds ->
  parse_uid (IStr (Py.str (pre ++ Py.chars "(UID " ++ ds ++ ")"%char :: post)))
  = inr (Py.int_of_digits ds).
Proof.
  intros Hp Hne Hd. unfold parse_uid, Re.search_groups. rewrite chars_str.
  change (Py.chars "(UID ") with ("("%char :: Py.chars "UID ").
  rewrite <- app_comm_cons, uid_search_skips by done.
  cbn [Re.search_from].
  change ("("%char :: Py.chars "UID " ++ ds ++ ")"%char :: post)
    with (Py.chars "(UID " ++ ds ++ ")"%char :: post).
  rewrite uid_run by done. cbn. by rewrite chars_str.
Qed.
(** ** The calls a handler makes *)

Lemma allowed_kept h h' ev : kept h h' -> allowed h ev -> allowed h' ev.
Proof.
  intros (Hs & _ & Hg & Hu & Hp & _ & _ & Hssl).
  destruct ev as [| c [] | | | | | |]; cbn; rewrite ?Hs, ?Hg, ?Hu, ?Hp, ?Hssl; done.
Qed.

Lemma kept_sym h h' : kept h h' -> kept h' h.
Proof. unfold kept. intuition congruence. Qed.

Lemma check_folder_allowed h folder headers (st : state E) r st' :
  check_folder E folder headers st = (r, st') ->
  exists new, trace st' = trace st ++ new /\ Forall (allowed h) new.
Proof.
  unfold check_folder.
  destruct (Py.contains "[Gmail]" folder) eqn:Hg; cbn.
  - intros [= <- <-]. exists []. by rewrite app_nil_r.
  - unfold bind, command, extern, get_self, ret, raise, lift, set_mark, modify_self. cbn.
    intros H.
    repeat case_match; simplify_eq; cbn in *.
    all: eexists; (split; [rewrite <- ?app_assoc; reflexivity|]); cbn.
    all: repeat (apply List.Forall_cons; [cbn [allowed]; eauto|]);
      apply List.Forall_nil.
Qed.

Lemma set_last_uids_folder_allowed h folder (st : state E) r st' :
  set_last_uids_folder E folder st = (r, st') ->
  exists new, trace st' = trace st ++ new /\ Forall (allowed h) new.
Proof.
  unfold set_last_uids_folder.
  destruct (Py.contains "[Gmail]" folder) eqn:Hg; cbn.
  - intros [= <- <-]. exists []. by rewrite app_nil_r.
  - unfold bind, command, extern, get_self, ret, raise, lift, set_mark, modify_self. cbn.
    intros H.
    repeat case_match; simplify_eq; cbn in *.
    all: eexists; (split; [rewrite <- ?app_assoc; reflexivity|]); cbn.
    all: repeat (apply List.Forall_cons; [cbn [allowed]; eauto|]);
      apply List.Forall_nil.
Qed.

Lemma for_fold_check_allowed h fs : forall headers (st : state E) r st',
  for_fold E (check_folder E) fs headers st = (r, st') ->
  exists new, trace st' = trace st ++ new /\ Forall (allowed h) new.
Proof.
  induction fs as [|f fs IH]; intros headers st r st'; cbn [for_fold].
  - intros [= <- <-]. exists []. by rewrite app_nil_r.
  - unfold bind at 1.
    destruct (check_folder E f headers st) as [[e|hs1] st1] eqn:Hf;
      apply (check_folder_allowed h) in Hf as (a & Ha & HA).
    + intros [= <- <-]. by exists a.
    + intros H. apply IH in H as (b & Hb & HB).
      exists (a ++ b). split; [by rewrite Hb, Ha, app_assoc|by apply Forall_app].
Qed.

Lemma for_each_set_allowed h fs : forall (st : state E) r st',
  for_each E (set_last_uids_folder E) fs st = (r, st') ->
  exists new, trace st' = trace st ++ new /\ Forall (allowed h) new.
Proof.
  induction fs as [|f fs IH]; intros st r st'; cbn [for_each].
  - intros [= <- <-]. exists []. by rewrite app_nil_r.
  - unfold bind at 1.
    destruct (set_last_uids_folder E f st) as [[e|[]] st1] eqn:Hf;
      apply (set_last_uids_folder_allowed h) in Hf as (a & Ha & HA).
    + intros [= <- <-]. by exists a.
    + intros H. apply IH in H as (b & Hb & HB).
      exists (a ++ b). split; [by rewrite Hb, Ha, app_assoc|by apply Forall_app].
Qed.

Lemma check_try_allowed h (st : state E) r st' :
  check_try E st = (r, st') ->
  exists new, trace st' = trace st ++ new /\ Forall (allowed h) new.
Proof.
  unfold check_try, bind.
  destruct (get_folders E st) as [[e|fs] st1] eqn:Hf;
    apply get_folders_spec in Hf as (_ & _ & Ht).
  - intros [= <- <-]. eexists. split; [done|]. by repeat constructor.
  - intros H. apply (for_fold_check_allowed h) in H as (b & Hb & HB).
    eexists. split; [rewrite Hb, Ht, <- app_assoc; reflexivity|].
    by repeat constructor.
Qed.

Lemma set_last_uids_allowed h (st : state E) r st' :
  set_last_uids E st = (r, st') ->
  exists new, trace st' = trace st ++ new /\ Forall (allowed h) new.
Proof.
  unfold set_last_uids, bind, modify_self. fold (cleared st).
  destruct (get_folders E (cleared st)) as [[e|fs] stg] eqn:Hf;
    apply get_folders_spec in Hf as (_ & _ & Ht).
  - intros [= <- <-]. eexists. split; [exact Ht|]. by repeat constructor.
  - intros H. apply (for_each_set_allowed h) in H as (b & Hb & HB).
    eexists. split; [rewrite Hb, Ht, <- app_assoc; reflexivity|].
    by repeat constructor.
Qed.

Lemma login_allowed (st : state E) r st' :
  gssapi (self st) = false ->
  login E st = (r, st') ->
  exists new, trace st' = trace st ++ new /\ Forall (allowed (self st)) new.
Proof.
  intros Hg. unfold login, bind, get_self, raise, ret. intros H.
  repeat case_match; simplify_eq; try rewrite command_spec in *; simplify_eq; cbn.
  all: eexists; split; [try reflexivity; by rewrite app_nil_r|].
  all: repeat constructor; done.
Qed.

Lemma gssauth_allowed response (st : state E) r st' :
  gssapi (self st) = true ->
  gssauth E response st = (r, st') ->
  exists new, trace st' = trace st ++ new /\ Forall (allowed (self st)) new.
Proof.
  intros Hg. unfold gssauth.
  unfold bind, extern, get_self, ret, raise, lift, modify_self. cbn.
  intros H.
  repeat case_match; simplify_eq; cbn in *.
  all: eexists; (split; [rewrite <- ?app_assoc; try reflexivity; by rewrite app_nil_r|]).
  all: repeat constructor; done.
Qed.

Lemma auth_loop_allowed n : forall sent (st : state E) r st',
  gssapi (self st) = true ->
  auth_loop E n "GSSAPI" (gssauth E) sent st = (r, st') ->
  exists new, trace st' = trace st ++ new /\ Forall (allowed (self st)) new.
Proof.
  induction n as [|n IH]; intros sent st r st' Hg; cbn [auth_loop].
  - intros [= <- <-]. exists []. by rewrite app_nil_r.
  - unfold bind at 1 2. unfold get_self at 1. cbn.
    destruct (imap_auth E _ _ _ _).1 as [e|[chal|typ dat]] eqn:Ha; cbn.
    + intros [= <- <-]. eexists. split; [reflexivity|]. by repeat constructor.
    + unfold bind at 1.
      match goal with |- context [gssauth E chal ?s] =>
        destruct (gssauth E chal s) as [[e|ans] st1] eqn:Hga end;
        pose proof (gssauth_spec _ _ _ _ Hga) as (_ & _ & _ & Hk & _);
        (apply gssauth_allowed in Hga as (a & Ha1 & Ha2); [|exact Hg]);
        cbn in *.
      * intros [= <- <-]. eexists.
        split; [rewrite Ha1, <- app_assoc; reflexivity|].
        constructor; [done|exact Ha2].
      * intros H. apply IH in H as (b & Hb1 & Hb2);
          [|destruct Hk as (_ & _ & -> & _); exact Hg].
        eexists. split; [rewrite Hb1, Ha1, <- !app_assoc; reflexivity|].
        constructor; [done|]. apply Forall_app. split; [done|].
        eapply Forall_impl; [exact Hb2|]. intros ev. apply allowed_kept.
        by apply kept_sym.
    + destruct (String.eqb typ "OK"); intros [= <- <-];
        (eexists; split; [reflexivity|]; by repeat constructor).
Qed.

Lemma recover_allowed e (st : state E) r st' :
  recover E rounds e st = (r, st') ->
  exists new, trace st' = trace st ++ new /\ Forall (allowed (self st)) new.
Proof.
  unfold recover. unfold bind at 1. unfold lift at 1.
  destruct (reraised e) as [e1|[|]].
  - intros [= <- <-]. exists []. by rewrite app_nil_r.
  - intros [= <- <-]. exists []. by rewrite app_nil_r.
  - unfold bind at 1, get_self at 1. unfold new_IMAP4.
    unfold bind at 1 2. unfold extern at 1. cbn.
    destruct (imap_open E _ _ _ _).1 as [e1|c] eqn:Ho.
    + intros [= <- <-]. eexists. split; [reflexivity|]. by repeat constructor.
    + unfold ret. cbn.
      destruct (gssapi (self st)) eqn:Hg.
      * unfold authenticate. intros H.
        apply auth_loop_allowed in H as (b & Hb1 & Hb2); [|exact Hg].
        cbn in *. eexists. split; [rewrite Hb1, <- app_assoc; reflexivity|].
        constructor; [done|]. eapply Forall_impl; [exact Hb2|].
        intros ev. apply allowed_kept. by repeat split.
      * intros H. apply login_allowed in H as (b & Hb1 & Hb2); [|exact Hg].
        cbn in *. eexists. split; [rewrite Hb1, <- app_assoc; reflexivity|].
        constructor; [done|]. eapply Forall_impl; [exact Hb2|].
        intros ev. apply allowed_kept. by repeat split.
Qed.

Lemma check_allowed depth : forall (st : state E) r st',
  check E rounds depth st = (r, st') ->
  Forall (allowed (self st)) (since st st').
Proof.
  induction depth as [|d IH]; intros st r st'; rewrite check_unfold;
    destruct (check_try E st) as [[e|hs] st1] eqn:Ht;
    pose proof (check_try_marks _ _ _ Ht) as (_ & _ & Hom & _);
    apply only_marks_kept in Hom as (Hk & _ & _);
    apply (check_try_allowed (self st)) in Ht as (a & Ha1 & Ha2).
  all: try (intros [= <- <-]; by rewrite (since_app _ _ _ Ha1)).
  all: destruct (caught e);
    [|intros [= <- <-]; by rewrite (since_app _ _ _ Ha1)].
  all: destruct (recover E rounds e st1) as [[e2|[]] st2] eqn:Hr;
    pose proof (recover_spec _ _ _ _ Hr) as (_ & _ & _ & Hk2 & _);
    apply recover_allowed in Hr as (b & Hb1 & Hb2);
    assert (Forall (allowed (self st)) b) as Hb3
      by (eapply Forall_impl; [exact Hb2|]; intros ev; apply allowed_kept;
          by apply kept_sym).
  all: try (intros [= <- <-];
            assert (trace st2 = trace st ++ a ++ b) as Hab
              by (by rewrite Hb1, Ha1, app_assoc);
            rewrite (since_app _ _ _ Hab); by apply Forall_app).
  intros H. pose proof (check_marks _ _ _ _ H) as (c & Hc1 & _).
  apply IH in H. rewrite (since_app _ _ _ Hc1) in H.
  assert (trace st' = trace st ++ a ++ b ++ c) as Habc
    by (by rewrite Hc1, Hb1, Ha1, <- !app_assoc).
  rewrite (since_app _ _ _ Habc). apply Forall_app. split; [done|].
  apply Forall_app. split; [done|].
  eapply Forall_impl; [exact H|]. intros ev. apply allowed_kept.
  apply kept_sym. eapply kept_trans; eauto.
Qed.
Lemma allowed_not_for_writing h new :
  Forall (allowed h) new -> opened_for_writing new = [].
Proof.
  induction 1 as [|ev new Hev _ IH]; [done|].
  destruct ev as [| c [] | | | | | |]; cbn; try done.
  destruct Hev as [-> _]. done.
Qed.

Lemma allowed_not_gmail h new :
  Forall (allowed h) new ->
  Forall (fun folder => Py.contains "[Gmail]" folder = false) (selected new).
Proof.
  induction 1 as [|ev new Hev _ IH]; [constructor|].
  destruct ev as [| c [] | | | | | |]; cbn; try done.
  destruct Hev as [_ Hg]. by constructor.
Qed.

Lemma allowed_opened h new :
  Forall (allowed h) new ->
  Forall (fun o => o.1.1 = imap_ssl (imap h) /\ o.1.2 = server h) (opened new).
Proof.
  induction 1 as [|ev new Hev _ IH]; [constructor|].
  destruct ev as [| c [] | | | | | |]; cbn; try done.
  by constructor.
Qed.

Lemma allowed_no_login h new :
  gssapi h = true -> Forall (allowed h) new ->
  Forall (fun ev => is_login ev = false) new.
Proof.
  intros Hg. induction 1 as [|ev new Hev _ IH]; constructor; [|done].
  destruct ev as [| c [] | | | | | |]; cbn in *; try done.
  destruct Hev as [Hf _]. congruence.
Qed.

Lemma allowed_no_gss h new :
  gssapi h = false -> Forall (allowed h) new ->
  Forall (fun ev => is_gss ev = false) new.
Proof.
  intros Hg. induction 1 as [|ev new Hev _ IH]; constructor; [|done].
  destruct ev as [| c [] | | | | | |]; cbn in *; try done;
    try (destruct Hev; congruence); congruence.
Qed.

(** X3: no folder is ever opened for writing: every select [check] and
    [set_last_uids] send is read-only, so polling cannot change a flag or
    expunge a message. *)
Theorem polling_is_read_only depth (st : state E) :
  opened_for_writing (since st (snd (check E rounds depth st))) = [] /\
  opened_for_writing (since st (snd (set_last_uids E st))) = [].
Proof.
  split.
  - destruct (check E rounds depth st) as [r st'] eqn:H.
    apply check_allowed in H. by apply allowed_not_for_writing in H.
  - destruct (set_last_uids E st) as [r st'] eqn:H.
    apply (set_last_uids_allowed (self st)) in H as (new & Ht & H).
    cbn. rewrite (since_app _ _ _ Ht). by apply allowed_not_for_writing in H.
Qed.

(** X4: whatever the listing and the patterns, no folder whose name contains
    [[Gmail]] is ever opened, by [check] (recoveries included) or by
    [set_last_uids]. *)
Theorem gmail_folders_never_opened depth (st : state E) :
  Forall (fun folder => Py.contains "[Gmail]" folder = false)
    (selected (since st (snd (check E rounds depth st)))) /\
  Forall (fun folder => Py.contains "[Gmail]" folder = false)
    (selected (since st (snd (set_last_uids E st)))).
Proof.
  split.
  - destruct (check E rounds depth st) as [r st'] eqn:H.
    apply check_allowed in H. by apply allowed_not_gmail in H.
  - destruct (set_last_uids E st) as [r st'] eqn:H.
    apply (set_last_uids_allowed (self st)) in H as (new & Ht & H).
    cbn. rewrite (since_app _ _ _ Ht). by apply allowed_not_gmail in H.
Qed.

(** X5: every session [check] opens, however many recoveries it goes through,
    is opened to the configured server and with the class of the session
    it replaces: an SSL handler never reconnects in clear. *)
Theorem reconnects_keep_server_and_class depth (st : state E) :
  Forall (fun o => o.1.1 = imap_ssl (imap (self st)) /\
                   o.1.2 = server (self st))
    (opened (since st (snd (check E rounds depth st)))).
Proof.
  destruct (check E rounds depth st) as [r st'] eqn:H.
  apply check_allowed in H. by apply allowed_opened in H.
Qed.

(** X6: a handler configured for GSSAPI never sends a login, and so never its
    password, during [check], recoveries included. *)
Theorem gssapi_handler_never_logs_in depth (st : state E) :
  gssapi (self st) = true ->
  Forall (fun ev => is_login ev = false)
    (since st (snd (check E rounds depth st))).
Proof.
  intros Hg. destruct (check E rounds depth st) as [r st'] eqn:H.
  apply check_allowed in H. by apply (allowed_no_login (self st)).
Qed.

(** X7: a handler configured for password login never starts an AUTHENTICATE
    exchange and never calls [kerberos] during [check]. *)
Theorem login_handler_never_uses_gss depth (st : state E) :
  gssapi (self st) = false ->
  Forall (fun ev => is_gss ev = false)
    (since st (snd (check E rounds depth st))).
Proof.
  intros Hg. destruct (check E rounds depth st) as [r st'] eqn:H.
  apply check_allowed in H. by apply (allowed_no_gss (self st)).
Qed.
Lemma init_session_allowed password0 use_ssl use_gssapi include0 exclude0
  (st : state E) r st' :
  trace st = [] ->
  imap_ssl (imap (self st)) = use_ssl ->
  gssapi (self st) = use_gssapi ->
  init_session E rounds password0 use_ssl use_gssapi include0 exclude0 st
    = (r, st') ->
  Forall (allowed (self st')) (trace st').
Proof.
  intros Htr Hssl Hgss. unfold init_session.
  unfold bind at 1, get_self at 1. unfold new_IMAP4.
  unfold bind at 1 2. unfold extern at 1. cbn. rewrite Htr. cbn [app].
  destruct (imap_open E _ _ _ _).1 as [e1|c] eqn:Ho.
  - intros [= <- <-]. cbn. by repeat constructor.
  - unfold ret at 1. cbn. unfold bind at 1.
    match goal with |- context [(if use_gssapi then ?a else ?b) ?s] =>
      destruct ((if use_gssapi then a else b) s) as [r2 st2] eqn:Ha end.
    assert (Forall (allowed (self st2)) (trace st2)) as Hall.
    { destruct use_gssapi.
      - unfold authenticate in Ha.
        pose proof (auth_loop_spec _ _ _ _ _ Ha) as (_ & _ & _ & Hk & _).
        apply auth_loop_allowed in Ha as (b & Hb & HB); [|exact Hgss].
        rewrite Hb. cbn [trace app].
        eapply Forall_impl; [|intros ev; apply (allowed_kept _ _ _ Hk)].
        constructor; [by split|exact HB].
      - unfold bind at 1, modify_self at 1 in Ha. cbn -[login] in Ha.
        pose proof (login_spec _ _ _ Ha) as (_ & _ & _ & Hself).
        apply login_allowed in Ha as (b & Hb & HB); [|exact Hgss].
        rewrite Hb, Hself. cbn [trace app self].
        constructor; [by split|exact HB]. }
    destruct r2 as [e2|[]].
    + by intros [= <- <-].
    + unfold bind, ret, raise.
      by destruct (re_valid E include0), (re_valid E exclude0);
        intros [= <- <-].
Qed.

Lemma init_allowed server0 username0 password0 port0 use_ssl include0
  exclude0 use_gssapi (w : World E) :
  let built := __init__ E rounds server0 username0 password0 port0 use_ssl
                 include0 exclude0 use_gssapi w in
  Forall (allowed (self (snd built))) (trace (snd built)) /\
  gssapi (self (snd built)) = use_gssapi.
Proof.
  cbv zeta.
  set (st0 := Build_state E (init_self server0 username0 port0 use_ssl
                               include0 exclude0 use_gssapi) w []).
  assert (__init__ E rounds server0 username0 password0 port0 use_ssl
            include0 exclude0 use_gssapi w =
          match init_session E rounds password0 use_ssl use_gssapi include0
                  exclude0 st0 with
          | (inr _, st1) => set_last_uids E st1
          | (inl e, st1) => (inl e, st1)
          end) as -> by reflexivity.
  destruct (init_session E rounds password0 use_ssl use_gssapi include0
              exclude0 st0) as [r1 st1] eqn:Hs.
  assert (gssapi (self st1) = use_gssapi) as Hg1.
  { revert Hs. unfold init_session.
    unfold bind at 1, get_self at 1. unfold new_IMAP4.
    unfold bind at 1 2. unfold extern at 1. cbn.
    destruct (imap_open E _ _ _ _).1 as [e1|c] eqn:Ho.
    - by intros [= <- <-].
    - unfold ret at 1. cbn. unfold bind at 1.
      match goal with |- context [(if use_gssapi then ?a else ?b) ?s] =>
        destruct ((if use_gssapi then a else b) s) as [r2 st2] eqn:Ha end.
      assert (gssapi (self st2) = use_gssapi) as Hg2.
      { destruct use_gssapi.
        - unfold authenticate in Ha.
          by apply auth_loop_spec in Ha as (_ & _ & _ & (_ & _ & -> & _) & _).
        - unfold bind at 1, modify_self at 1 in Ha. cbn -[login] in Ha.
          by apply login_spec in Ha as (_ & _ & _ & ->). }
      destruct r2 as [e2|[]]; [by intros [= <- <-]|].
      unfold bind, ret, raise.
      by destruct (re_valid E include0), (re_valid E exclude0);
        intros [= <- <-]. }
  apply init_session_allowed in Hs; [|done..].
  destruct r1 as [e1|[]]; cbn [fst snd]; [done|].
  destruct (set_last_uids E st1) as [r2 st2] eqn:Hu. cbn [fst snd].
  pose proof (set_last_uids_spec _ _ _ Hu) as (_ & _ & Hk & _).
  apply (set_last_uids_allowed (self st2)) in Hu as (b & Hb & HB).
  split; [|destruct Hk as (_ & _ & -> & _); exact Hg1].
  rewrite Hb. apply Forall_app. split; [|done].
  eapply Forall_impl; [exact Hs|]. intros ev. by apply allowed_kept.
Qed.

(** X8: the constructor authenticates by the mechanism it was asked for and by
    no other: with [use_gssapi] it sends no login (the password argument
    never leaves the program), without it it starts no AUTHENTICATE
    exchange and calls [kerberos] not once. *)
Theorem constructor_uses_chosen_mechanism server0 username0 password0 port0
  use_ssl include0 exclude0 (w : World E) :
  Forall (fun ev => is_login ev = false)
    (trace (snd (__init__ E rounds server0 username0 password0 port0 use_ssl
                   include0 exclude0 true w))) /\
  Forall (fun ev => is_gss ev = false)
    (trace (snd (__init__ E rounds server0 username0 password0 port0 use_ssl
                   include0 exclude0 false w))).
Proof.
  split.
  - destruct (init_allowed server0 username0 password0 port0 use_ssl include0
                exclude0 true w) as [H Hg].
    by apply (allowed_no_login _ _ Hg).
  - destruct (init_allowed server0 username0 password0 port0 use_ssl include0
                exclude0 false w) as [H Hg].
    by apply (allowed_no_gss _ _ Hg).
Qed.



Lemma check_folder_tagged folder headers (st : state E) hs st' :
  check_folder E folder headers st = (inr hs, st') ->
  exists tagged,
    hs = headers ++ tagged /\
    Forall (fun m => tag_of m = Some ("folder", folder) /\
                     Py.contains "[Gmail]" folder = false) tagged.
Proof.
  unfold check_folder.
  destruct (Py.contains "[Gmail]" folder) eqn:Hg; cbn.
  - intros [= <- <-]. exists []. by rewrite app_nil_r.
  - unfold bind, command, extern, get_self, ret, raise, lift, set_mark, modify_self. cbn.
    intros H.
    repeat case_match; simplify_eq; cbn in *.
    all: try (exists []; by rewrite app_nil_r).
    eexists. split; [reflexivity|].
    apply Forall_map, Forall_forall. intros m _. split; [|done].
    unfold tag_of, setitem; cbn. apply last_snoc.
Qed.

Lemma for_fold_check_tagged fs : forall headers (st : state E) hs st',
  for_fold E (check_folder E) fs headers st = (inr hs, st') ->
  exists tagged,
    hs = headers ++ tagged /\
    Forall (fun m => exists folder,
                tag_of m = Some ("folder", folder) /\
                In folder fs /\ Py.contains "[Gmail]" folder = false) tagged.
Proof.
  induction fs as [|f fs IH]; intros headers st hs st'; cbn [for_fold].
  - intros [= <- <-]. exists []. by rewrite app_nil_r.
  - unfold bind at 1.
    destruct (check_folder E f headers st) as [[e|hs1] st1] eqn:Hf; [done|].
    intros H. apply IH in H as (t2 & -> & Ht2).
    apply check_folder_tagged in Hf as (t1 & -> & Ht1).
    exists (t1 ++ t2). rewrite app_assoc. split; [done|].
    apply Forall_app. split.
    + eapply Forall_impl; [exact Ht1|]. intros m [Hm Hg]. exists f.
      split_and!; [done|by left|done].
    + eapply Forall_impl; [exact Ht2|]. intros m (F & Hm & HF & Hg).
      exists F. split_and!; [done|by right|done].
Qed.

(** X10: every header [check] returns, after however many recoveries, carries
    as its last-set field [folder] the name of a folder that is not a
    special one: no header comes back untagged. *)
Theorem returned_headers_are_tagged depth : forall (st : state E) hs st',
  check E rounds depth st = (inr hs, st') ->
  Forall (fun m => exists folder,
              tag_of m = Some ("folder", folder) /\
              Py.contains "[Gmail]" folder = false) hs.
Proof.
  induction depth as [|d IH]; intros st hs st'; rewrite check_unfold;
    destruct (check_try E st) as [[e|hs1] st1] eqn:Ht.
  all: try (intros [= <- <-]; unfold check_try, bind in Ht;
            destruct (get_folders E st) as [[e|fs] stg]; [done|];
            apply for_fold_check_tagged in Ht as (tg & -> & Htg);
            cbn [app]; eapply Forall_impl; [exact Htg|];
            intros m (F & Hm & _ & Hg); eauto).
  all: destruct (caught e); [|done].
  all: destruct (recover E rounds e st1) as [[e2|[]] st2]; try done.
  apply IH.
Qed.

Lemma set_last_uids_folder_dom folder (st : state E) r st' :
  set_last_uids_folder E folder st = (r, st') ->
  exists new,
    trace st' = trace st ++ new /\
    (last_uid (self st') = last_uid (self st) \/
     (selected new = [folder] /\
      exists uid,
        last_uid (self st') = <[folder := uid]> (last_uid (self st)))).
Proof.
  unfold set_last_uids_folder.
  destruct (Py.contains "[Gmail]" folder) eqn:Hg; cbn.
  - intros [= <- <-]. exists []. rewrite app_nil_r. auto.
  - unfold bind, command, extern, get_self, ret, raise, lift, set_mark, modify_self. cbn.
    intros H.
    repeat case_match; simplify_eq; cbn in *.
    all: eexists; (split; [rewrite <- ?app_assoc; reflexivity|]); cbn.
    all: eauto.
Qed.

Lemma set_last_uids_loop_dom folder fs : forall (st : state E) r st',
  for_each E (set_last_uids_folder E) fs st = (r, st') ->
  exists new,
    trace st' = trace st ++ new /\
    (is_Some (last_uid (self st') !! folder) ->
     is_Some (last_uid (self st) !! folder) \/ In folder (selected new)).
Proof.
  induction fs as [|f fs IH]; intros st r st'; cbn [for_each].
  - intros [= <- <-]. exists []. rewrite app_nil_r. auto.
  - unfold bind at 1.
    assert (forall (s1 : state E) a,
              trace s1 = trace st ++ a ->
              last_uid (self s1) = last_uid (self st) \/
              (selected a = [f] /\
               exists uid, last_uid (self s1)
                           = <[f := uid]> (last_uid (self st))) ->
              is_Some (last_uid (self s1) !! folder) ->
              is_Some (last_uid (self st) !! folder) \/
              In folder (selected a)) as Hone.
    { intros s1 a _ [->|(Hsel & uid & ->)] Hsome; [by left|].
      destruct (decide (f = folder)) as [->|Hne].
      - right. rewrite Hsel. by left.
      - left. by rewrite lookup_insert_ne in Hsome. }
    destruct (set_last_uids_folder E f st) as [[e|[]] st1] eqn:Hstep;
      apply set_last_uids_folder_dom in Hstep as (a & Ha & Hda).
    + intros [= <- <-]. exists a. split; [done|]. by apply Hone.
    + intros H. apply IH in H as (b & Hb & Hdb).
      exists (a ++ b). split; [by rewrite Hb, Ha, app_assoc|].
      intros Hsome. rewrite selected_app.
      destruct (Hdb Hsome) as [H1|H1]; [|right; apply in_or_app; by right].
      destruct (Hone st1 a Ha Hda H1) as [H2|H2]; [by left|].
      right. apply in_or_app. by left.
Qed.

(** X11: the marks [set_last_uids] leaves are those of folders it opened in
    that very call, whether it ran to its end or raised: the marks the
    handler had before are forgotten, also for folders the listing no
    longer names. *)
Theorem set_last_uids_forgets_old_marks (st : state E) folder :
  is_Some (last_uid (self (snd (set_last_uids E st))) !! folder) ->
  In folder (selected (since st (snd (set_last_uids E st)))).
Proof.
  destruct (set_last_uids E st) as [r st'] eqn:Hrun. cbn [snd].
  unfold set_last_uids, bind, modify_self in Hrun. fold (cleared st) in Hrun.
  destruct (get_folders E (cleared st)) as [[e|fs] stg] eqn:Hf;
    pose proof (get_folders_spec _ _ _ Hf) as (Hs & _ & Ht).
  - injection Hrun as <- <-. rewrite Hs. cbn. rewrite lookup_empty.
    by intros [? ?].
  - apply (set_last_uids_loop_dom folder) in Hrun as (b & Hb & Hdb).
    intros Hsome.
    assert (trace st' = trace st ++
              [ev_imap (imap_conn (imap (self (cleared st)))) c_list
                 (imap_call E (imap_conn (imap (self (cleared st)))) c_list
                    (world (cleared st))).1] ++ b) as Hab
      by (by rewrite Hb, Ht, <- app_assoc).
    rewrite (since_app _ _ _ Hab). cbn [app selected].
    destruct (Hdb Hsome) as [H|H]; [|done].
    rewrite Hs in H. cbn in H. rewrite lookup_empty in H. by destruct H.
Qed.
Lemma opened_app a b : opened (a ++ b) = opened a ++ opened b.
Proof.
  induction a as [|ev a IH]; [done|]. destruct ev; cbn; by rewrite ?IH.
Qed.

(** X12: [check] retries as long as the failures last: on a server that aborts
    every listing while it accepts every connection and login, [check]
    reconnects once more than the depth Python allows it, and ends with
    the [RuntimeError] of the recursion limit.  No other bound on the
    number of retries is in the code. *)
Theorem check_retries_until_depth (Inv : World E -> Prop) depth :
  (forall w c, Inv w ->
     fst (imap_call E c c_list w) = inl IMAP4_abort /\
     Inv (snd (imap_call E c c_list w))) ->
  (forall w ssl host p, Inv w ->
     (exists c, fst (imap_open E ssl host p w) = inr c) /\
     Inv (snd (imap_open E ssl host p w))) ->
  (forall w c user pw, Inv w ->
     (exists d, fst (imap_call E c (c_login user pw) w) = inr ("OK", d)) /\
     Inv (snd (imap_call E c (c_login user pw) w))) ->
  forall (st : state E) pass,
    gssapi (self st) = false ->
    password (self st) = Some pass ->
    Inv (world st) ->
    fst (check E rounds depth st) = inl RuntimeError /\
    length (opened (since st (snd (check E rounds depth st)))) = S depth.
Proof.
  intros Hlist Hopen Hlogin.
  assert (forall (st : state E) pass,
            gssapi (self st) = false -> password (self st) = Some pass ->
            Inv (world st) ->
            exists st1 st2 a,
              check_try E st = (inl IMAP4_abort, st1) /\
              recover E rounds IMAP4_abort st1 = (inr tt, st2) /\
              gssapi (self st2) = false /\ password (self st2) = Some pass /\
              Inv (world st2) /\
              trace st2 = trace st ++ a /\ length (opened a) = 1%nat)
    as Hstep.
  { intros st pass Hg Hp Hi.
    destruct (Hlist (world st) (imap_conn (imap (self st))) Hi) as [Hl Hi1].
    destruct (Hopen _ (imap_ssl (imap (self st))) (server (self st))
                (default_port (imap_ssl (imap (self st)))) Hi1) as [[c Ho] Hi2].
    destruct (Hlogin _ c (username (self st)) pass Hi2) as [[d Hlg] Hi3].
    do 3 eexists. split.
    { unfold check_try, get_folders. unfold bind at 1. unfold bind at 1.
      rewrite command_spec, Hl. reflexivity. }
    split.
    { unfold recover. unfold bind at 1, lift at 1. cbn [reraised].
      unfold bind at 1, get_self at 1. unfold new_IMAP4.
      unfold bind at 1 2. unfold extern at 1. cbn [self world trace fst snd].
      rewrite Ho. unfold ret at 1. unfold bind at 1, modify_self at 1.
      cbn [self world trace fst snd]. rewrite Hg.
      unfold login. unfold bind at 1, get_self at 1.
      cbn [self world trace fst snd set_imap password]. rewrite Hp.
      unfold bind at 1. rewrite command_spec.
      cbn [self world trace fst snd set_imap imap imap_conn username].
      rewrite Hlg. cbn [fst String.eqb Ascii.eqb Bool.eqb]. reflexivity. }
    cbn [self world trace set_imap gssapi password].
    split_and!; try done.
    - rewrite <- !app_assoc. reflexivity.
    - reflexivity. }
  induction depth as [|d IH]; intros st pass Hg Hp Hi;
    destruct (Hstep st pass Hg Hp Hi)
      as (st1 & st2 & a & Ht & Hr & Hg2 & Hp2 & Hi2 & Ha & Hlen);
    rewrite check_unfold, Ht; cbn [caught]; rewrite Hr.
  - cbn [fst snd]. split; [done|]. by rewrite (since_app _ _ _ Ha).
  - destruct (IH st2 pass Hg2 Hp2 Hi2) as [Hres Hcnt].
    destruct (check E rounds d st2) as [r3 st3] eqn:Hk. cbn [fst snd] in *.
    split; [done|].
    pose proof (check_marks _ _ _ _ Hk) as (c & Hc & _).
    rewrite (since_app _ _ _ Hc) in Hcnt.
    assert (trace st3 = trace st ++ a ++ c) as Hac
      by (by rewrite Hc, Ha, app_assoc).
    rewrite (since_app _ _ _ Hac), opened_app, length_app, Hlen, Hcnt. done.
Qed.
(** ** Reading UIDs *)

Lemma uid_search_no_paren s : forall bol,
  Forall (fun a => a <> "("%char) s ->
  Re.search_from false uid_re bol s = None.
Proof.
  induction s as [|a s IH]; intros bol Hs.
  - reflexivity.
  - inversion Hs as [|? ? Ha Hs']; subst. cbn [Re.search_from].
    assert (Re.run false uid_re bol (a :: s) [] [] = None) as ->.
    { unfold uid_re. cbn. unfold Py.ascii_eqb.
      by destruct (Ascii.eqb_spec a "("%char). }
    by apply IH.
Qed.

(** X13: a UID answer that is not a string raises [TypeError]; a string with no
    opening parenthesis in it raises [AttributeError]: neither is read as a
    number. *)
Theorem parse_uid_rejects txt a b :
  Forall (fun c => c <> "("%char) (Py.chars txt) ->
  parse_uid (IStr txt) = inl AttributeError /\
  parse_uid INone = inl TypeError /\
  parse_uid (IPair a b) = inl TypeError.
Proof.
  intros H. split; [|done]. unfold parse_uid, Re.search_groups.
  by rewrite uid_search_no_paren.
Qed.

Lemma greedy_digits_sound rest : forall s bol g r,
  Forall (fun a => Re.is_digit a = true) g ->
  Re.greedy false Re.Digit rest s bol [g] = Some r ->
  exists g' bol' s',
    Forall (fun a => Re.is_digit a = true) g' /\
    rest bol' s' [g'] = Some r.
Proof.
  induction s as [|a s IH]; intros bol g r Hg; cbn [Re.greedy].
  - intros H. by exists g, bol, [].
  - cbn [Re.accepts]. destruct (Re.is_digit a) eqn:Ha.
    + destruct (Re.greedy false Re.Digit rest s false (Re.push a [g]))
        as [r'|] eqn:Hrec.
      * intros [= <-]. apply IH in Hrec; [done|]. by constructor.
      * intros H. by exists g, bol, (a :: s).
    + intros H. by exists g, bol, (a :: s).
Qed.

Lemma uid_run_sound s bol r :
  Re.run false uid_re bol s [] [] = Some r ->
  exists ds, Forall (fun a => Re.is_digit a = true) ds /\ r = [ds].
Proof.
  unfold uid_re, Re.lit.
  cbn [Py.chars list_ascii_of_string app map Re.run Re.push].
  intros H.
  repeat match type of H with
         | match ?x with _ => _ end = _ => destruct x eqn:?; try done
         end.
  cbn [map] in H.
  apply greedy_digits_sound in H as (g' & bol' & s' & Hg' & H);
    [|by repeat constructor].
  cbn in H.
  repeat match type of H with
         | match ?x with _ => _ end = _ => destruct x eqn:?; try done
         end.
  injection H as <-. exists (rev g'). split; [|done].
  by apply Forall_rev.
Qed.

Lemma uid_search_sound s : forall bol r,
  Re.search_from false uid_re bol s = Some r ->
  exists ds, Forall (fun a => Re.is_digit a = true) ds /\ r = [ds].
Proof.
  induction s as [|a s IH]; intros bol r; cbn [Re.search_from].
  - destruct (Re.run false uid_re bol [] [] []) eqn:Hr; [|done].
    intros [= <-]. by apply uid_run_sound in Hr.
  - destruct (Re.run false uid_re bol (a :: s) [] []) eqn:Hr.
    + intros [= <-]. by apply uid_run_sound in Hr.
    + apply IH.
Qed.

Lemma digit_val_nonneg a : Re.is_digit a = true -> 0 <= Py.digit_val a.
Proof.
  unfold Re.is_digit, Py.digit_val. intros H.
  apply andb_true_iff in H as [H _]. apply Nat.leb_le in H. lia.
Qed.

Lemma int_of_digits_nonneg ds :
  Forall (fun a => Re.is_digit a = true) ds -> 0 <= Py.int_of_digits ds.
Proof.
  unfold Py.int_of_digits. intros Hd.
  assert (forall acc, 0 <= acc ->
            0 <= fold_left (fun acc a => 10 * acc + Py.digit_val a) ds acc)
    as H; [|by apply H].
  induction Hd as [|d ds Hd _ IH]; intros acc Hacc; cbn [fold_left]; [done|].
  apply IH. apply digit_val_nonneg in Hd. lia.
Qed.

Lemma parse_uid_nonneg x uid : parse_uid x = inr uid -> 0 <= uid.
Proof.
  destruct x as [|s|]; try done. unfold parse_uid, Re.search_groups.
  destruct (Re.search_from false uid_re true (Py.chars s)) as [r|] eqn:Hs;
    [|done].
  apply uid_search_sound in Hs as (ds & Hds & ->). cbn.
  intros [= <-]. rewrite chars_str. by apply int_of_digits_nonneg.
Qed.

Lemma uid_reports_nonneg tr : forall cur folder uid,
  In (folder, uid) (uid_reports cur tr) -> 0 <= uid.
Proof.
  induction tr as [|ev tr IH]; intros cur folder uid; [done|].
  destruct ev as [| c [] r | | | | | |]; cbn; try apply IH.
  destruct r as [e|[typ [|x d]]]; try apply IH.
  destruct (String.eqb _ "UID"); try apply IH.
  destruct cur as [f|]; try apply IH.
  destruct (parse_uid x) as [e|u] eqn:Hp; try apply IH.
  intros [[= <- <-]|Hin]; [by apply parse_uid_nonneg in Hp|by apply IH in Hin].
Qed.

Lemma set_last_uids_folder_nonneg folder (st : state E) r st' :
  (forall f m, last_uid (self st) !! f = Some m -> 0 <= m) ->
  set_last_uids_folder E folder st = (r, st') ->
  forall f m, last_uid (self st') !! f = Some m -> 0 <= m.
Proof.
  intros Hinv. unfold set_last_uids_folder.
  destruct (Py.contains "[Gmail]" folder) eqn:Hg; cbn.
  - by intros [= <- <-].
  - unfold bind, command, extern, get_self, ret, raise, lift, set_mark, modify_self. cbn.
    intros H.
    repeat case_match; simplify_eq; cbn in *; try done.
    all: intros f m; destruct (decide (folder = f)) as [->|Hne];
      [rewrite lookup_insert_eq|rewrite lookup_insert_ne by done; apply Hinv].
    + by intros [= <-].
    + intros [= <-]. eapply parse_uid_nonneg; eauto.
Qed.

(** X14: no mark is ever negative.  Whatever the server answers, the marks
    [set_last_uids] leaves are at least 0, and [check] keeps them so: a
    search therefore never asks for a range that starts below UID 1. *)
Theorem marks_are_never_negative depth (st : state E) :
  (forall folder m,
     last_uid (self (snd (set_last_uids E st))) !! folder = Some m ->
     0 <= m) /\
  ((forall folder m, last_uid (self st) !! folder = Some m -> 0 <= m) ->
   forall folder m,
     last_uid (self (snd (check E rounds depth st))) !! folder = Some m ->
     0 <= m).
Proof.
  split.
  - destruct (set_last_uids E st) as [r st'] eqn:Hrun. cbn [snd].
    unfold set_last_uids, bind, modify_self in Hrun.
    fold (cleared st) in Hrun.
    destruct (get_folders E (cleared st)) as [[e|fs] stg] eqn:Hf;
      pose proof (get_folders_spec _ _ _ Hf) as (Hs & _ & _).
    + injection Hrun as <- <-. rewrite Hs. cbn. intros f m.
      by rewrite lookup_empty.
    + assert (forall f m, last_uid (self stg) !! f = Some m -> 0 <= m) as H0.
      { rewrite Hs. cbn. intros f m. by rewrite lookup_empty. }
      clear Hf Hs. revert stg r st' H0 Hrun.
      induction fs as [|f fs IH]; intros s r s' H0; cbn [for_each].
      * by intros [= <- <-].
      * unfold bind at 1.
        destruct (set_last_uids_folder E f s) as [[e|[]] s1] eqn:Hstep;
          pose proof (set_last_uids_folder_nonneg _ _ _ _ H0 Hstep) as H1.
        -- by intros [= <- <-].
        -- by apply IH.
  - intros Hinv folder m.
    destruct (check E rounds depth st) as [r st'] eqn:Hk. cbn [snd].
    apply check_marks in Hk as (new & _ & Hstep & _).
    destruct (Hstep folder) as [->|(u & -> & Hin)]; [apply Hinv|].
    intros [= <-]. by apply (uid_reports_nonneg new None folder).
Qed.
(** ** Reading folder descriptors *)

Lemma lazy_skips k rest pre s r :
  Forall (fun a => Re.accepts false k a = true) pre ->
  (forall a t b, In a pre -> rest b (a :: t) [] = None) ->
  (forall b, rest b s [] = Some r) ->
  forall bol, Re.lazy false k rest (pre ++ s) bol [] = Some r.
Proof.
  intros Hacc Hfail Hok.
  induction Hacc as [|a pre Ha _ IH]; intros bol.
  - cbn [app]. destruct s; cbn [Re.lazy]; by rewrite Hok.
  - cbn [app Re.lazy]. rewrite (Hfail a _ _ (or_introl eq_refl)), Ha.
    cbn [Re.push map]. apply IH.
    intros a' t b Hin. apply Hfail. by right.
Qed.

Lemma greedy_fails k rest : forall s bol opn,
  (forall u b o, suffix u s -> rest b u o = None) ->
  Re.greedy false k rest s bol opn = None.
Proof.
  induction s as [|a s IH]; intros bol opn Hfail; cbn [Re.greedy].
  - by apply Hfail.
  - rewrite IH.
    + destruct (Re.accepts false k a); by apply Hfail.
    + intros u b o Hu. apply Hfail. by apply suffix_cons_r.
Qed.

Lemma greedy_to_end k rest : forall s g r,
  Forall (fun a => Re.accepts false k a = true) s ->
  (forall b, rest b [] [rev s ++ g] = Some r) ->
  forall bol, Re.greedy false k rest s bol [g] = Some r.
Proof.
  induction s as [|a s IH]; intros g r Hs Hend bol; cbn [Re.greedy].
  - apply Hend.
  - inversion Hs as [|? ? Ha Hs']; subst. rewrite Ha. cbn [Re.push map].
    rewrite (IH (a :: g) r); [done|done|].
    intros b. specialize (Hend b). cbn [rev] in Hend.
    by rewrite <- app_assoc in Hend.
Qed.

Lemma greedy_backtracks k rest pre : forall s g r,
  Forall (fun a => Re.accepts false k a = true) pre ->
  (forall bol, Re.greedy false k rest s bol [rev pre ++ g] = Some r) ->
  forall bol, Re.greedy false k rest (pre ++ s) bol [g] = Some r.
Proof.
  induction pre as [|a pre IH]; intros s g r Hp Hs bol.
  - apply Hs.
  - inversion Hp as [|? ? Ha Hp']; subst. cbn [app Re.greedy].
    rewrite Ha. cbn [Re.push map]. rewrite (IH s (a :: g) r); [done|done|].
    intros b. specialize (Hs b). cbn [rev] in Hs.
    by rewrite <- app_assoc in Hs.
Qed.

Lemma starts_with_suffix p t u :
  Py.contains_chars p t = false -> suffix u t -> Py.starts_with p u = false.
Proof.
  intros Hc [pre ->]. induction pre as [|a pre IH]; cbn [app] in *.
  - destruct u; cbn in Hc; by apply orb_false_iff in Hc as [? _].
  - apply IH. cbn in Hc. by apply orb_false_iff in Hc as [_ ?].
Qed.
Lemma dot_accepts s :
  no_newline s -> Forall (fun a => Re.accepts false Re.Dot a = true) s.
Proof.
  intros H. eapply Forall_impl; [exact H|]. intros a Ha. cbn.
  unfold Py.ascii_eqb. by destruct (Ascii.eqb_spec a Py.newline).
Qed.

(** [folder_re] reads a listing line back: the first group is the
    separator and the second the name as written, whenever the attributes
    hold no closing parenthesis, nothing holds a newline, and no double
    quote followed by a space occurs in the name. *)
Lemma folder_re_reads_line attrs sep name :
  Forall (fun a => a <> ")"%char) attrs ->
  no_newline attrs -> no_newline sep -> no_newline name ->
  Py.contains_chars [Py.dquote; " "%char] name = false ->
  folder_groups (listed attrs sep name) = inr (Py.str sep, Py.str name).
Proof.
  intros Hattrs Hna Hns Hnn Hq.
  unfold folder_groups, listed, Re.match_groups. rewrite chars_str.
  assert (Re.run false folder_re true
            ("("%char :: attrs ++ ")"%char :: " "%char :: Py.dquote ::
             sep ++ Py.dquote :: " "%char :: name) [] []
          = Some [sep; name]) as ->; [|done].
  unfold folder_re, Re.lit.
  cbn [Py.chars list_ascii_of_string app map Re.run Re.accepts Py.ascii_eqb
       Ascii.eqb Bool.eqb Re.push].
  apply lazy_skips.
  - by apply dot_accepts.
  - intros a t b Hin. cbn [Re.run Re.accepts]. unfold Py.ascii_eqb.
    rewrite Forall_forall in Hattrs.
    destruct (Ascii.eqb_spec a ")"%char) as [->|]; [|done].
    exfalso. apply (Hattrs ")"%char); [by apply list_elem_of_In|done].
  - intros b.
    cbn [Re.run Re.accepts Py.ascii_eqb Ascii.eqb Bool.eqb Re.push map
         Py.dquote].
    apply greedy_backtracks; [by apply dot_accepts|]. intros bol.
    cbn [Re.greedy Re.accepts Py.ascii_eqb Ascii.eqb Bool.eqb Py.newline
         Py.dquote negb Re.push map].
    rewrite greedy_fails.
    + cbn [Re.run Re.accepts Py.ascii_eqb Ascii.eqb Bool.eqb Re.push map
           Py.dquote].
      apply greedy_to_end; [by apply dot_accepts|]. intros b'.
      cbn [Re.run]. rewrite !app_nil_r, !rev_involutive. done.
    + intros u b' o Hu.
      assert (Py.starts_with [Py.dquote; " "%char] u = false) as Hsw.
      { by apply (starts_with_suffix _ name). }
      destruct o as [|g o]; [done|]. cbn [Re.run].
      destruct u as [|a [|a' u]]; try done.
      * cbn [Re.accepts]. by destruct (Py.ascii_eqb a _).
      * cbn [Re.accepts]. cbn [Py.starts_with] in Hsw.
        unfold Py.ascii_eqb in *.
        rewrite (Ascii.eqb_sym a), (Ascii.eqb_sym a').
        destruct (Ascii.eqb Py.dquote a); [|done].
        by destruct (Ascii.eqb " " a').
Qed.
Lemma map_result_listed lines :
  Forall line_ok lines ->
  map_result folder_groups (map listed_line lines) =
  inr (map (fun line => (Py.str line.1.2, Py.str line.2)) lines).
Proof.
  induction 1 as [|[[attrs sep] name] lines (H1 & H2 & H3 & H4 & H5) _ IH];
    [done|].
  cbn [map map_result]. unfold listed_line at 1. cbn [fst snd].
  rewrite folder_re_reads_line by done. by rewrite IH.
Qed.

(** X15: on a listing whose lines are all well formed, [get_folders] raises
    nothing, leaves the handler as it was, and returns, in the order of the
    listing, the canonical names that the include pattern finds and the
    exclude pattern does not. *)
Theorem get_folders_reads_listing (st : state E) typ lines :
  fst (imap_call E (imap_conn (imap (self st))) c_list (world st))
    = inr (typ, map listed_line lines) ->
  Forall line_ok lines ->
  fst (get_folders E st) =
    inr (List.filter
           (fun folder =>
              re_search_I E (include (self st)) folder &&
              negb (re_search_I E (exclude (self st)) folder))
           (map canonical_line lines)) /\
  self (snd (get_folders E st)) = self st.
Proof.
  intros Hl Hok. split.
  - unfold get_folders. unfold bind at 1.
    rewrite command_spec, Hl. cbn [fst snd].
    unfold bind at 1, lift at 1. rewrite (map_result_listed _ Hok).
    unfold bind, get_self, ret. cbn [fst snd self].
    do 2 f_equal. by rewrite map_map.
  - destruct (get_folders E st) as [r st'] eqn:H.
    by apply get_folders_spec in H as (? & _).
Qed.

Lemma replace_one_char c n s :
  Py.replace_chars [c] [n] s =
  map (fun a => if Ascii.eqb a c then n else a) s.
Proof.
  cbn [Py.replace_chars].
  induction s as [|a s IH]; [done|].
  cbn [Py.replace_from Py.starts_with map List.length Nat.pred app].
  unfold Py.ascii_eqb. rewrite (Ascii.eqb_sym c a), andb_true_r.
  destruct (Ascii.eqb a c); cbn [app]; by rewrite IH.
Qed.

Lemma lstrip_stops c s :
  (forall a t, s = a :: t -> a <> c) -> Py.lstrip_chars c s = s.
Proof.
  destruct s as [|a t]; [done|]. intros H. cbn. unfold Py.ascii_eqb.
  destruct (Ascii.eqb_spec a c) as [->|]; [|done]. by destruct (H c t).
Qed.

Lemma strip_quoted name :
  Forall (fun a => a <> Py.dquote) name ->
  Py.strip_chars Py.dquote (Py.dquote :: name ++ [Py.dquote]) = name.
Proof.
  intros Hn. unfold Py.strip_chars.
  change (Py.lstrip_chars Py.dquote (Py.dquote :: name ++ [Py.dquote]))
    with (Py.lstrip_chars Py.dquote (name ++ [Py.dquote])).
  destruct name as [|a name].
  - reflexivity.
  - inversion Hn as [|? ? Ha Hn']; subst.
    rewrite (lstrip_stops _ ((a :: name) ++ [Py.dquote]))
      by (intros ? ? [= <- _]; done).
    rewrite rev_app_distr. cbn [rev app].
    change (Py.lstrip_chars Py.dquote (Py.dquote :: rev name ++ [a]))
      with (Py.lstrip_chars Py.dquote (rev name ++ [a])).
    rewrite lstrip_stops.
    + by rewrite rev_app_distr, rev_involutive.
    + intros b t Hb.
      assert (In b (rev name ++ [a])) as Hin by (rewrite Hb; by left).
      apply in_app_or in Hin as [Hin|[<-|[]]]; [|done].
      apply in_rev in Hin. rewrite Forall_forall in Hn'.
      apply Hn'. by apply list_elem_of_In.
Qed.

(** X16: the canonical name of a quoted name under a one-character separator:
    the quotes are dropped and every separator character becomes a
    slash, nothing else changes; under the separator [/] the name is left
    as it is. *)
Theorem canonical_quoted_name c name :
  Forall (fun a => a <> Py.dquote) name ->
  canonical (Py.str [c], Py.str (Py.dquote :: name ++ [Py.dquote])) =
    Py.str (map (fun a => if Ascii.eqb a c then "/"%char else a) name) /\
  canonical (Py.str ["/"%char], Py.str (Py.dquote :: name ++ [Py.dquote])) =
    Py.str name.
Proof.
  intros Hn. unfold canonical. cbn [fst snd]. rewrite !chars_str.
  rewrite strip_quoted by done.
  change (Py.chars "/") with ["/"%char]. rewrite !replace_one_char.
  split; [done|]. f_equal. rewrite <- (map_id name) at 2.
  apply map_ext. intros a. by destruct (Ascii.eqb_spec a "/"%char) as [->|].
Qed.
(** ** Errors of the listing *)

Lemma folder_groups_error data e :
  map_result folder_groups data = inl e ->
  e = TypeError \/ e = AttributeError \/ e = IndexError.
Proof.
  induction data as [|x data IH]; [done|]. cbn [map_result].
  destruct (folder_groups x) as [e1|m] eqn:Hx.
  - intros [= <-]. unfold folder_groups in Hx.
    repeat case_match; simplify_eq; auto.
  - destruct (map_result folder_groups data); [|done].
    intros [= <-]. by apply IH.
Qed.

(** X17: a listing with an entry [folder_re] cannot read ends [check]: the
    exception of the first such entry ([TypeError] for an entry that is
    not a string, as [imaplib] gives for an account without folders,
    [AttributeError] for a line the pattern does not match) is not one
    the handler catches, so no recovery is tried, no folder is opened and
    the handler is as it was. *)
Theorem listing_error_ends_check depth (st : state E) listing e :
  fst (imap_call E (imap_conn (imap (self st))) c_list (world st))
    = inr listing ->
  map_result folder_groups (snd listing) = inl e ->
  fst (check E rounds depth st) = inl e /\
  self (snd (check E rounds depth st)) = self st /\
  since st (snd (check E rounds depth st)) =
    [ev_imap (imap_conn (imap (self st))) c_list (inr listing)] /\
  (e = TypeError \/ e = AttributeError \/ e = IndexError).
Proof.
  intros Hl He.
  pose proof (folder_groups_error _ _ He) as Hkind.
  assert (check_try E st =
            (inl e, {| self := self st;
                       world := (imap_call E (imap_conn (imap (self st)))
                                   c_list (world st)).2;
                       trace := trace st ++
                         [ev_imap (imap_conn (imap (self st))) c_list
                            (inr listing)] |})) as Ht.
  { unfold check_try, get_folders. unfold bind at 1. unfold bind at 1.
    rewrite command_spec, Hl. cbn [fst snd].
    unfold bind at 1, lift at 1. by rewrite He. }
  rewrite check_unfold, Ht.
  assert (caught e = false) as -> by (by destruct Hkind as [->|[->| ->]]).
  cbn [fst snd self]. split_and!; try done.
  by apply since_app.
Qed.

(** ** The answer to the fetch of headers *)

(** X18: line 101 on an answer made of pairs and closing parentheses, which is
    what [imaplib] gives for a fetch of headers: one message for each
    pair, from the second component of the pair, in order; the
    parentheses are dropped. *)
Theorem parse_headers_pairs data :
  Forall (fun x => (exists a b, x = IPair a b) \/ x = IStr ")") data ->
  parse_headers data = inr (map message_from_string (header_texts data)) /\
  (length (header_texts data) <= length data)%nat.
Proof.
  induction 1 as [|x data Hx _ [IH1 IH2]]; [done|].
  destruct Hx as [(a & b & ->)| ->]; cbn [parse_headers header_texts item_is
    item_1 map length].
  - rewrite IH1. split; [done|lia].
  - cbn. rewrite IH1. split; [done|lia].
Qed.

(** ** The constructor and its patterns *)

Lemma login_setup (st : state E) r st' :
  login E st = (r, st') ->
  exists new, trace st' = trace st ++ new /\
              Forall (fun ev => session_setup ev = true) new.
Proof.
  unfold login, bind, get_self, raise, ret. intros H.
  repeat case_match; simplify_eq; try rewrite command_spec in *; simplify_eq; cbn.
  all: eexists; split; [try reflexivity; by rewrite app_nil_r|].
  all: by repeat constructor.
Qed.

Lemma gssauth_setup response (st : state E) r st' :
  gssauth E response st = (r, st') ->
  exists new, trace st' = trace st ++ new /\
              Forall (fun ev => session_setup ev = true) new.
Proof.
  unfold gssauth.
  unfold bind, extern, get_self, ret, raise, lift, modify_self. cbn.
  intros H.
  repeat case_match; simplify_eq; cbn in *.
  all: eexists; (split; [rewrite <- ?app_assoc; try reflexivity; by rewrite app_nil_r|]).
  all: by repeat constructor.
Qed.

Lemma auth_loop_setup n : forall sent (st : state E) r st',
  auth_loop E n "GSSAPI" (gssauth E) sent st = (r, st') ->
  exists new, trace st' = trace st ++ new /\
              Forall (fun ev => session_setup ev = true) new.
Proof.
  induction n as [|n IH]; intros sent st r st'; cbn [auth_loop].
  - intros [= <- <-]. exists []. by rewrite app_nil_r.
  - unfold bind at 1 2. unfold get_self at 1. cbn.
    destruct (imap_auth E _ _ _ _).1 as [e|[chal|typ dat]] eqn:Ha; cbn.
    + intros [= <- <-]. eexists. split; [reflexivity|]. by repeat constructor.
    + unfold bind at 1.
      match goal with |- context [gssauth E chal ?s] =>
        destruct (gssauth E chal s) as [[e|ans] st1] eqn:Hga end;
        apply gssauth_setup in Hga as (a & Ha1 & Ha2); cbn in *.
      * intros [= <- <-]. eexists.
        split; [rewrite Ha1, <- app_assoc; reflexivity|]. by constructor.
      * intros H. apply IH in H as (b & Hb1 & Hb2).
        eexists. split; [rewrite Hb1, Ha1, <- !app_assoc; reflexivity|].
        constructor; [done|]. by apply Forall_app.
    + destruct (String.eqb typ "OK"); intros [= <- <-];
        (eexists; split; [reflexivity|]; by repeat constructor).
Qed.

Lemma init_session_setup password0 use_ssl use_gssapi include0 exclude0
  (st : state E) r st' :
  trace st = [] ->
  init_session E rounds password0 use_ssl use_gssapi include0 exclude0 st
    = (r, st') ->
  Forall (fun ev => session_setup ev = true) (trace st') /\
  (r = inr tt -> re_valid E include0 = true /\ re_valid E exclude0 = true).
Proof.
  intros Htr. unfold init_session.
  unfold bind at 1, get_self at 1. unfold new_IMAP4.
  unfold bind at 1 2. unfold extern at 1. cbn. rewrite Htr. cbn [app].
  destruct (imap_open E _ _ _ _).1 as [e1|c] eqn:Ho.
  - intros [= <- <-]. cbn. split; [by repeat constructor|done].
  - unfold ret at 1. cbn. unfold bind at 1.
    match goal with |- context [(if use_gssapi then ?a else ?b) ?s] =>
      destruct ((if use_gssapi then a else b) s) as [r2 st2] eqn:Ha end.
    assert (Forall (fun ev => session_setup ev = true) (trace st2)) as Hall.
    { destruct use_gssapi.
      - unfold authenticate in Ha.
        apply auth_loop_setup in Ha as (b & -> & HB). by constructor.
      - unfold bind at 1, modify_self at 1 in Ha. cbn -[login] in Ha.
        apply login_setup in Ha as (b & -> & HB). by constructor. }
    destruct r2 as [e2|[]].
    + by intros [= <- <-].
    + unfold bind, ret, raise.
      by destruct (re_valid E include0), (re_valid E exclude0);
        intros [= <- <-].
Qed.

(** X19: a handler is never built on a pattern that does not compile; and the
    constructor finds out late: with such a pattern it has already opened
    the session and authenticated when it raises, but it has sent no
    command about folders. *)
Theorem constructor_bad_pattern server0 username0 password0 port0 use_ssl
  include0 exclude0 use_gssapi (w : World E) :
  re_valid E include0 && re_valid E exclude0 = false ->
  let built := __init__ E rounds server0 username0 password0 port0 use_ssl
                 include0 exclude0 use_gssapi w in
  (exists e, fst built = inl e) /\
  Forall (fun ev => session_setup ev = true) (trace (snd built)).
Proof.
  intros Hbad. cbv zeta.
  set (st0 := Build_state E (init_self server0 username0 port0 use_ssl
                               include0 exclude0 use_gssapi) w []).
  assert (__init__ E rounds server0 username0 password0 port0 use_ssl
            include0 exclude0 use_gssapi w =
          match init_session E rounds password0 use_ssl use_gssapi include0
                  exclude0 st0 with
          | (inr _, st1) => set_last_uids E st1
          | (inl e, st1) => (inl e, st1)
          end) as -> by reflexivity.
  destruct (init_session E rounds password0 use_ssl use_gssapi include0
              exclude0 st0) as [r1 st1] eqn:Hs.
  apply init_session_setup in Hs as [Hall Hok]; [|done].
  destruct r1 as [e1|[]]; cbn [fst snd]; [eauto|].
  destruct (Hok eq_refl) as [H1 H2]. by rewrite H1, H2 in Hbad.
Qed.
(** ** The security context is created once *)

Lemma krb_inits_app a b : krb_inits (a ++ b) = (krb_inits a + krb_inits b)%nat.
Proof. unfold krb_inits. by rewrite List.filter_app, length_app. Qed.

Lemma gss_kept_missing h h' :
  gss_kept h h' -> (contexts_missing h' <= contexts_missing h)%nat.
Proof.
  intros [_ Hvc]. unfold contexts_missing.
  destruct (gss_vc h) as [vc|]; [by rewrite (Hvc vc)|].
  destruct (gss_vc h'); lia.
Qed.

Lemma allowed_no_inits h new :
  gssapi h = false -> Forall (allowed h) new -> krb_inits new = O.
Proof.
  intros Hg. induction 1 as [|ev new Hev _ IH]; [done|].
  unfold krb_inits in *.
  destruct ev as [| c [] | | | | | |]; cbn in *; try done.
  destruct Hev. congruence.
Qed.

Lemma check_try_no_inits (st : state E) r st' :
  check_try E st = (r, st') ->
  exists new, trace st' = trace st ++ new /\ krb_inits new = O.
Proof.
  intros H.
  apply (check_try_allowed
           (init_self EmptyString EmptyString None false EmptyString
              EmptyString false)) in H as (new & Hn & Hall).
  exists new. split; [done|]. by apply allowed_no_inits in Hall.
Qed.

Lemma set_last_uids_no_inits (st : state E) r st' :
  set_last_uids E st = (r, st') ->
  exists new, trace st' = trace st ++ new /\ krb_inits new = O.
Proof.
  intros H.
  apply (set_last_uids_allowed
           (init_self EmptyString EmptyString None false EmptyString
              EmptyString false)) in H as (new & Hn & Hall).
  exists new. split; [done|]. by apply allowed_no_inits in Hall.
Qed.

Lemma login_no_inits (st : state E) r st' :
  login E st = (r, st') ->
  exists new, trace st' = trace st ++ new /\ krb_inits new = O.
Proof.
  unfold login, bind, get_self, raise, ret. intros H.
  repeat case_match; simplify_eq; try rewrite command_spec in *; simplify_eq; cbn.
  all: eexists; split; [try reflexivity; by rewrite app_nil_r|].
  all: done.
Qed.

(** One challenge: a context is created only when there is none, and when
    the answer is returned the handler then has one. *)
Lemma gssauth_inits response (st : state E) r st' :
  gssauth E response st = (r, st') ->
  exists new, trace st' = trace st ++ new /\
    (krb_inits new <= contexts_missing (self st))%nat /\
    ((exists e, r = inl e) \/
     (krb_inits new + contexts_missing (self st')
        <= contexts_missing (self st))%nat).
Proof.
  unfold gssauth.
  unfold bind, extern, get_self, ret, raise, lift, modify_self. cbn.
  intros H.
  repeat case_match; simplify_eq; cbn in *.
  all: eexists; (split; [rewrite <- ?app_assoc; try reflexivity; by rewrite app_nil_r|]).
  all: unfold contexts_missing, krb_inits; cbn;
    repeat match goal with H : gss_vc _ = _ |- _ => rewrite H end; cbn.
  all: split; [lia|]; eauto; right; try lia.
  all: destruct (gss_vc _); lia.
Qed.

Lemma auth_loop_inits n : forall sent (st : state E) r st',
  auth_loop E n "GSSAPI" (gssauth E) sent st = (r, st') ->
  exists new, trace st' = trace st ++ new /\
    (krb_inits new <= contexts_missing (self st))%nat /\
    ((exists e, r = inl e) \/
     (krb_inits new + contexts_missing (self st')
        <= contexts_missing (self st))%nat).
Proof.
  induction n as [|n IH]; intros sent st r st'; cbn [auth_loop].
  - intros [= <- <-]. exists []. rewrite app_nil_r. split; [done|].
    unfold krb_inits. cbn. split; [lia|eauto].
  - unfold bind at 1 2. unfold get_self at 1. cbn.
    destruct (imap_auth E _ _ _ _).1 as [e|[chal|typ dat]] eqn:Ha; cbn.
    + intros [= <- <-]. eexists. split; [reflexivity|].
      unfold krb_inits. cbn. split; [lia|eauto].
    + unfold bind at 1.
      match goal with |- context [gssauth E chal ?s] =>
        destruct (gssauth E chal s) as [[e|ans] st1] eqn:Hga end;
        apply gssauth_inits in Hga as (a & Ha1 & Ha2 & Ha3); cbn in *.
      * intros [= <- <-]. eexists.
        split; [rewrite Ha1, <- app_assoc; reflexivity|].
        rewrite (krb_inits_app [_] a). split; [done|eauto].
      * destruct Ha3 as [[e ?]|Ha3]; [done|].
        intros H. apply IH in H as (b & Hb1 & Hb2 & Hb3). cbn in *.
        eexists. split; [rewrite Hb1, Ha1, <- !app_assoc; reflexivity|].
        rewrite (krb_inits_app [_] (a ++ b)), krb_inits_app.
        change (krb_inits [_]) with O.
        split; [lia|]. destruct Hb3 as [?|Hb3]; [by left|right; lia].
    + destruct (String.eqb typ "OK"); intros [= <- <-];
        (eexists; split; [reflexivity|]; unfold krb_inits; cbn;
         split; [lia|]; eauto; right; lia).
Qed.

Lemma recover_inits e (st : state E) r st' :
  recover E rounds e st = (r, st') ->
  exists new, trace st' = trace st ++ new /\
    (krb_inits new <= contexts_missing (self st))%nat /\
    ((exists e', r = inl e') \/
     (krb_inits new + contexts_missing (self st')
        <= contexts_missing (self st))%nat).
Proof.
  unfold recover. unfold bind at 1. unfold lift at 1.
  destruct (reraised e) as [e1|[|]].
  - intros [= <- <-]. exists []. rewrite app_nil_r. split; [done|].
    unfold krb_inits; cbn; split; [lia|eauto].
  - intros [= <- <-]. exists []. rewrite app_nil_r. split; [done|].
    unfold krb_inits; cbn; split; [lia|eauto].
  - unfold bind at 1, get_self at 1. unfold new_IMAP4.
    unfold bind at 1 2. unfold extern at 1. cbn.
    destruct (imap_open E _ _ _ _).1 as [e1|c] eqn:Ho.
    + intros [= <- <-]. eexists. split; [reflexivity|].
      unfold krb_inits; cbn; split; [lia|eauto].
    + unfold ret. cbn.
      destruct (gssapi (self st)) eqn:Hg.
      * unfold authenticate. intros H.
        apply auth_loop_inits in H as (b & Hb1 & Hb2 & Hb3).
        cbn in *. eexists. split; [rewrite Hb1, <- app_assoc; reflexivity|].
        by rewrite (krb_inits_app [_] b).
      * intros H.
        pose proof (login_spec _ _ _ H) as Hls.
        apply login_no_inits in H as (b & Hb1 & Hb2).
        cbn in *. eexists. split; [rewrite Hb1, <- app_assoc; reflexivity|].
        rewrite (krb_inits_app [_] b), Hb2. cbn. split; [lia|].
        right. destruct Hls as (_ & _ & _ & ->). unfold contexts_missing. cbn.
        destruct (gss_vc (self st)); lia.
Qed.

(** X20: [authGSSClientInit] is called only by a handler that has no security
    context, and then at most once in a whole [check], however many
    recoveries it makes: a handler with a context never creates another,
    and keeps the one it has. *)
Theorem security_context_made_once depth (st : state E) :
  (krb_inits (since st (snd (check E rounds depth st)))
     <= contexts_missing (self st))%nat /\
  (forall vc, gss_vc (self st) = Some vc ->
     krb_inits (since st (snd (check E rounds depth st))) = O /\
     gss_vc (self (snd (check E rounds depth st))) = Some vc).
Proof.
  assert (forall depth (st : state E),
            (krb_inits (since st (snd (check E rounds depth st)))
               <= contexts_missing (self st))%nat) as Hcount.
  { clear. induction depth as [|d IH]; intros st; rewrite check_unfold;
      destruct (check_try E st) as [[e|hs] st1] eqn:Ht;
      pose proof (check_try_marks _ _ _ Ht) as (_ & _ & Hom & _);
      apply only_marks_kept in Hom as (_ & Hg & _);
      apply check_try_no_inits in Ht as (a & Ha1 & Ha2).
    all: try (cbn [snd]; rewrite (since_app _ _ _ Ha1), Ha2; lia).
    all: destruct (caught e);
      [|cbn [snd]; rewrite (since_app _ _ _ Ha1), Ha2; lia].
    all: destruct (recover E rounds e st1) as [[e2|[]] st2] eqn:Hr;
      apply recover_inits in Hr as (b & Hb1 & Hb2 & Hb3);
      apply gss_kept_missing in Hg.
    all: try (cbn [snd];
              assert (trace st2 = trace st ++ a ++ b) as Hab
                by (by rewrite Hb1, Ha1, app_assoc);
              rewrite (since_app _ _ _ Hab), krb_inits_app, Ha2; cbn; lia).
    destruct Hb3 as [[e' ?]|Hb3]; [done|].
    specialize (IH st2).
    destruct (check E rounds d st2) as [r st'] eqn:Hk. cbn [snd] in *.
    pose proof (check_marks _ _ _ _ Hk) as (c & Hc1 & _).
    rewrite (since_app _ _ _ Hc1) in IH.
    assert (trace st' = trace st ++ a ++ b ++ c) as Habc
      by (by rewrite Hc1, Hb1, Ha1, <- !app_assoc).
    rewrite (since_app _ _ _ Habc), !krb_inits_app, Ha2. cbn. lia. }
  split; [apply Hcount|].
  intros vc Hvc. split.
  - specialize (Hcount depth st). unfold contexts_missing in Hcount.
    rewrite Hvc in Hcount. lia.
  - destruct (check E rounds depth st) as [r st'] eqn:Hk.
    apply check_marks in Hk as (_ & _ & _ & _ & _ & Hg2). cbn. eauto.
Qed.

End Facts.
Import Scripted Scenario.

Lemma run_result_eq {A B : Type} (p : A * B) (r : A) :
  fst p = r -> p = (r, snd p).
Proof. intros <-. by destruct p. Qed.



(** The run of C1 on [Scenario.steady_arrival]: the one UID reported for
    INBOX is 11, and the mark goes from 10 to 11. *)
Example steady_arrival_run :
  let st := constructed steady_arrival in
  let st' := snd (check env 1 0 st) in
  uid_reports None (since st st') = [("INBOX", 11)] /\
  last_uid (self st) !! "INBOX" = Some 10 /\
  last_uid (self st') !! "INBOX" = Some 11.
Proof. repeat split; vm_compute; reflexivity. Qed.

Lemma check_nothing_new_witness :
  exists st',
    check env 1 0 (constructed no_news) = (inr [], st') /\
    last_uid (self st') = last_uid (self (constructed no_news)) /\
    self st' = self (constructed no_news) /\ world st' = [].
Proof.
  apply (check_nothing_new env 1 0 (constructed no_news) ["INBOX"; "Lists"]
           (snd (get_folders env (constructed no_news)))).
  - run_result @run_result_eq.
  - vm_compute. reflexivity.
Defined.


(** The run of [Scenario.abort_between]: the header of INBOX collected by
    the failed attempt is not in the result, which is the one header of
    Lists; both marks have moved. *)
Example abort_between_run :
  fst (check env 1 1 (constructed abort_between)) =
    inr [ {| msg_source := "Subject: digest";
             msg_set := [("folder", "Lists")] |} ] /\
  last_uid (self (snd (check env 1 1 (constructed abort_between)))) !! "INBOX" = Some 11 /\
  last_uid (self (snd (check env 1 1 (constructed abort_between)))) !! "Lists" = Some 4.
Proof. split_and!; vm_compute; reflexivity. Qed.


(** The four kinds of failure of C4 on [Scenario.failing_list]: a protocol
    error and an [sslerror] with code 2 leave [check] with one session
    opened in all; [abort] and an [sslerror] with code 8 are followed by a
    second session and a result. *)
Example failing_list_runs :
  let run x := check env 1 1 (constructed (failing_list x)) in
  let sessions x := List.length (opened (trace (snd (run x)))) in
  (fst (run IMAP4_error) = inl IMAP4_error /\ sessions IMAP4_error = 1%nat) /\
  (fst (run (sslerror [AInt 2; AStr "handshake"])) =
     inl (sslerror [AInt 2; AStr "handshake"]) /\
   sessions (sslerror [AInt 2; AStr "handshake"]) = 1%nat) /\
  (fst (run IMAP4_abort) = inr [] /\ sessions IMAP4_abort = 2%nat) /\
  (fst (run (sslerror [AInt 8; AStr "EOF"])) = inr [] /\
   sessions (sslerror [AInt 8; AStr "EOF"]) = 2%nat).
Proof. repeat split; vm_compute; reflexivity. Qed.

Lemma recovery_ignores_port_witness :
  let st := constructed_on_1143 (failing_list IMAP4_abort) in
  let st1 := snd (check_try env st) in
  exists q ro rest,
    since st1 (snd (check env 1 1 st)) =
      ev_open (imap_ssl (imap (self st))) (server (self st)) q ro :: rest /\
    q = default_port (imap_ssl (imap (self st))) /\
    q <> port (self st) /\
    (forall st2, recover env 1 IMAP4_abort st1 = (inr tt, st2) ->
                 imap_port (imap (self st2)) = q).
Proof.
  intros st st1.
  apply (recovery_ignores_port env 1 1 st IMAP4_abort st1).
  - run_result @run_result_eq.
  - reflexivity.
  - reflexivity.
  - vm_compute. discriminate.
Defined.

(** The run of C9 on [Scenario.failing_list]: the handler is constructed
    on port 1143, and after the abort the second session goes to 143. *)
Example port_1143_run :
  let st := constructed_on_1143 (failing_list IMAP4_abort) in
  port (self st) = 1143 /\
  opened (trace (snd (check env 1 1 st))) =
    [(false, "mail.example.org", 1143); (false, "mail.example.org", 143)] /\
  imap_port (imap (self (snd (check env 1 1 st)))) = 143.
Proof. repeat split; vm_compute; reflexivity. Qed.

Lemma recovery_reuses_gss_state_witness :
  let st := gss_constructed in
  let st1 := snd (check_try env st) in
  (exists ro rest,
     since st1 (snd (check env 5 1 st)) =
       ev_open (imap_ssl (imap (self st))) (server (self st))
               (default_port (imap_ssl (imap (self st)))) (inr 2%nat) ::
       ev_auth 2%nat "GSSAPI" None (inr (Continue EmptyString)) ::
       ev_krb_unwrap (Some 7%nat) (b64encode env EmptyString) ro :: rest) /\
  gss_step (self (snd (check env 5 1 st))) = GSS_STATE_WRAP /\
  gss_vc (self (snd (check env 5 1 st))) = Some 7%nat.
Proof.
  intros st st1.
  apply (recovery_reuses_gss_state env 5 1 st IMAP4_abort st1 7%nat 2%nat
           EmptyString).
  - run_result @run_result_eq.
  - reflexivity.
  - reflexivity.
  - vm_compute. reflexivity.
  - vm_compute. reflexivity.
  - vm_compute. reflexivity.
  - reflexivity.
  - discriminate.
  - vm_compute. reflexivity.
  - vm_compute. reflexivity.
Defined.

(** The run of C10 on [Scenario.gss_session_lost]: construction ends in
    state WRAP with context 7; after the abort the only call made to the
    library is the unwrap in context 7, and its failure ends [check]. *)
Example gss_session_lost_run :
  fst (__init__ env 5 "mail.example.org" "alice" EmptyString None false
         ".*" "^$" true gss_session_lost) = inr tt /\
  gss_step (self gss_constructed) = GSS_STATE_WRAP /\
  gss_vc (self gss_constructed) = Some 7%nat /\
  fst (check env 5 1 gss_constructed) = inl GSSError /\
  since gss_constructed (snd (check env 5 1 gss_constructed)) =
    [ ev_imap 1%nat c_list (inl IMAP4_abort);
      ev_open false "mail.example.org" 143 (inr 2%nat);
      ev_auth 2%nat "GSSAPI" None (inr (Continue EmptyString));
      ev_krb_unwrap (Some 7%nat) EmptyString (inl GSSError) ].
Proof. repeat split; vm_compute; reflexivity. Qed.

Lemma scripted_re_agrees : re_agrees env.
Proof. intros p re s H. cbn. unfold search_I. by rewrite H. Qed.

Lemma gmail_and_work_not_polled_witness :
  let st := constructed_without_work four_folders in
  fst (get_folders env st) = inr ["INBOX"; "INBOX/Archive"; "[Gmail]/All Mail"] /\
  (forall r st', check_try env st = (r, st') ->
     selected (since st st') `prefix_of` ["INBOX"; "INBOX/Archive"] /\
     (forall hs, r = inr hs ->
        selected (since st st') = ["INBOX"; "INBOX/Archive"])) /\
  (forall r st', set_last_uids env st = (r, st') ->
     selected (since st st') `prefix_of` ["INBOX"; "INBOX/Archive"] /\
     (r = inr tt -> selected (since st st') = ["INBOX"; "INBOX/Archive"])).
Proof.
  intros st.
  apply (gmail_and_work_not_polled env st
           ("OK", [ descriptor "INBOX"; descriptor "INBOX/Archive";
                    descriptor "[Gmail]/All Mail"; descriptor "Work" ])
           (groups_of [ descriptor "INBOX"; descriptor "INBOX/Archive";
                        descriptor "[Gmail]/All Mail"; descriptor "Work" ])).
  - exact scripted_re_agrees.
  - vm_compute. reflexivity.
  - vm_compute. reflexivity.
  - vm_compute. reflexivity.
  - vm_compute. reflexivity.
  - vm_compute. reflexivity.
Defined.

(** The run of C5 on [Scenario.four_folders]: at construction and at the
    check the folders opened are INBOX and INBOX/Archive. *)
Example four_folders_run :
  fst (__init__ env 1 "mail.example.org" "alice" "secret" None false
         ".*" "^Work$" false four_folders) = inr tt /\
  selected (trace (constructed_without_work four_folders)) =
    ["INBOX"; "INBOX/Archive"] /\
  fst (check env 1 0 (constructed_without_work four_folders)) = inr [] /\
  selected (since (constructed_without_work four_folders)
              (snd (check env 1 0 (constructed_without_work four_folders)))) =
    ["INBOX"; "INBOX/Archive"].
Proof. repeat split; vm_compute; reflexivity. Qed.


(** The marks of C6 after construction on [Scenario.two_marks]: 0 for the
    empty folder, 4821 for the folder whose last message has UID 4821. *)
Example two_marks_run :
  let built := __init__ env 1 "mail.example.org" "alice" "secret" None false
                 ".*" "^$" false two_marks in
  fst built = inr tt /\
  last_uid (self (snd built)) !! "INBOX" = Some 0 /\
  last_uid (self (snd built)) !! "INBOX/Archive" = Some 4821 /\
  parse_uid (IStr "(UID 4821)") = inr 4821.
Proof. repeat split; vm_compute; reflexivity. Qed.

Lemma set_last_uids_malformed_uid_witness :
  let st := session garbage_uid in
  let st1 := snd (get_folders env (cleared st)) in
  exists st',
    set_last_uids env st = (inl AttributeError, st') /\
    self st' = self st1 /\
    trace st' = trace st1 ++
      [ ev_imap (imap_conn (imap (self st))) (c_select "INBOX" true)
          (inr ("OK", [IStr "5"]));
        ev_imap (imap_conn (imap (self st))) (c_fetch (IStr "5") "UID")
          (inr ("OK", [IStr "garbage"])) ].
Proof.
  intros st st1.
  apply (set_last_uids_malformed_uid env st [] "INBOX" ["Lists"] st1 st1
           "OK" (IStr "5") [] "OK" "garbage" []).
  - run_result @run_result_eq.
  - reflexivity.
  - reflexivity.
  - vm_compute. reflexivity.
  - discriminate.
  - reflexivity.
  - vm_compute. reflexivity.
  - vm_compute. reflexivity.
Defined.

(** The run of C7 on [Scenario.garbage_uid]: the constructor raises, and
    the answers for the second folder are still waiting. *)
Example garbage_uid_run :
  let built := __init__ env 1 "mail.example.org" "alice" "secret" None false
                 ".*" "^$" false garbage_uid in
  fst built = inl AttributeError /\
  world (snd built) = lists_unasked /\
  Re.search_groups false uid_re "garbage" = None /\
  Re.search_groups false uid_re "(UID 123)" = Some ["123"].
Proof. repeat split; vm_compute; reflexivity. Qed.

Lemma check_missing_mark_witness :
  let st := constructed refused_then_opened in
  let stg := snd (get_folders env st) in
  let st1 := snd (for_fold env (check_folder env) ["INBOX"] [] stg) in
  exists st2,
    check env 1 1 st = (inl (KeyError "Shared"), st2) /\
    self st2 = self st1 /\
    trace st2 = trace st1 ++
      [ ev_imap (imap_conn (imap (self st))) (c_select "Shared" true)
          (inr ("OK", [IStr "2"])) ].
Proof.
  intros st stg st1.
  apply (check_missing_mark env 1 1 st ["INBOX"] "Shared" [] stg [] st1
           "OK" (IStr "2")).
  - run_result @run_result_eq.
  - run_result @run_result_eq.
  - reflexivity.
  - vm_compute. reflexivity.
  - vm_compute. reflexivity.
  - discriminate.
Defined.

(** The run of C8 on [Scenario.refused_then_opened]: construction
    succeeds and leaves no mark for the refused folder; the check raises
    [KeyError] for it, and the answer to the search it would have made is
    still waiting. *)
Example refused_then_opened_run :
  let built := __init__ env 1 "mail.example.org" "alice" "secret" None false
                 ".*" "^$" false refused_then_opened in
  fst built = inr tt /\
  last_uid (self (snd built)) !! "INBOX" = Some 0 /\
  last_uid (self (snd built)) !! "Shared" = None /\
  fst (check env 1 1 (snd built)) = inl (KeyError "Shared") /\
  world (snd (check env 1 1 (snd built))) = [ok [IStr "1 2"]].
Proof. repeat split; vm_compute; reflexivity. Qed.

(** The text-level steps of the source on concrete inputs. *)
Example folder_descriptor_examples :
  folder_groups (descriptor "INBOX") = inr ("/", q +:+ "INBOX" +:+ q) /\
  canonical ("/", q +:+ "INBOX" +:+ q) = "INBOX" /\
  folder_groups (IStr ("(\HasChildren) " +:+ q +:+ "." +:+ q +:+ " INBOX.Lists"))
    = inr (".", "INBOX.Lists") /\
  canonical (".", "INBOX.Lists") = "INBOX/Lists" /\
  folder_groups (IStr "INBOX") = inl AttributeError /\
  folder_groups INone = inl TypeError.
Proof. repeat split; vm_compute; reflexivity. Qed.

Example string_examples :
  Py.contains "[Gmail]" "[Gmail]/All Mail" = true /\
  Py.contains "[Gmail]" "INBOX/Archive" = false /\
  Py.str (Py.replace_chars (Py.chars " ") (Py.chars ",") (Py.chars "2 3 4"))
    = "2,3,4" /\
  Py.str (Py.replace_chars [] (Py.chars "/") (Py.chars "abc")) = "/a/b/c/" /\
  uid_range 4821 = "(UID 4822:99999999)" /\
  is_all_read [IStr EmptyString] = true /\
  is_all_read [IStr "2 3 4"] = false.
Proof. repeat split; vm_compute; reflexivity. Qed.

Example parse_headers_example :
  parse_headers [ IPair "2 (BODY[HEADER] {14}" "Subject: one";
                  IStr ")";
                  IPair "3 (BODY[HEADER] {14}" "Subject: two";
                  IStr ")" ]
  = inr [ message_from_string "Subject: one";
          message_from_string "Subject: two" ] /\
  parse_headers [INone] = inl TypeError.
Proof. split; reflexivity. Qed.

Example pattern_examples :
  search_I ".*" "Work" = true /\
  search_I "^Work$" "Work" = true /\
  search_I "^Work$" "work" = true /\
  search_I "^Work$" "Workshop" = false /\
  search_I "^Work$" "INBOX/Work" = false /\
  search_I "^$" "INBOX" = false /\
  search_I "^$" EmptyString = true.
Proof. repeat split; vm_compute; reflexivity. Qed.

(** ** Instances of the further properties *)

Lemma gssapi_handler_never_logs_in_witness :
  Forall (fun ev => is_login ev = false)
    (since gss_constructed (snd (check env 5 1 gss_constructed))).
Proof.
  apply (gssapi_handler_never_logs_in env 5 1 gss_constructed).
  vm_compute. reflexivity.
Defined.

Lemma login_handler_never_uses_gss_witness :
  Forall (fun ev => is_gss ev = false)
    (since (constructed abort_between)
       (snd (check env 1 1 (constructed abort_between)))).
Proof.
  apply (login_handler_never_uses_gss env 1 1 (constructed abort_between)).
  vm_compute. reflexivity.
Defined.


Lemma returned_headers_are_tagged_witness :
  Forall (fun m => exists folder,
              tag_of m = Some ("folder", folder) /\
              Py.contains "[Gmail]" folder = false)
    [ {| msg_source := "Subject: new"; msg_set := [("folder", "INBOX")] |} ].
Proof.
  apply (returned_headers_are_tagged env 1 0 (constructed steady_arrival) _
           (snd (check env 1 0 (constructed steady_arrival)))).
  run_result @run_result_eq.
Defined.

Lemma set_last_uids_forgets_old_marks_witness :
  In "INBOX/Archive"
    (selected (since (session two_marks)
                 (snd (set_last_uids env (session two_marks))))).
Proof.
  apply (set_last_uids_forgets_old_marks env (session two_marks)
           "INBOX/Archive").
  exists 4821. vm_compute. reflexivity.
Defined.

Lemma check_retries_until_depth_witness :
  fst (check Dropping.env 1 2 Dropping.handler) = inl RuntimeError /\
  length (opened (since Dropping.handler
                    (snd (check Dropping.env 1 2 Dropping.handler)))) = 3%nat.
Proof.
  apply (check_retries_until_depth Dropping.env 1 (fun _ => True) 2)
    with (pass := "secret").
  - intros w c _. split; [reflexivity|exact I].
  - intros w ssl host p _. split; [exists 1%nat; reflexivity|exact I].
  - intros w c user pw _. split; [eexists; reflexivity|exact I].
  - reflexivity.
  - reflexivity.
  - exact I.
Defined.

Lemma parse_uid_rejects_witness :
  parse_uid (IStr "garbage") = inl AttributeError /\
  parse_uid INone = inl TypeError /\
  parse_uid (IPair "1 (UID 7" "x") = inl TypeError.
Proof.
  apply (parse_uid_rejects "garbage" "1 (UID 7" "x").
  cbn. repeat constructor; discriminate.
Defined.

Lemma parse_uid_envelope_witness :
  parse_uid (IStr (Py.str (Py.chars "12 " ++ Py.chars "(UID " ++
                           Py.chars "4821" ++ ")"%char :: [])))
  = inr (Py.int_of_digits (Py.chars "4821")).
Proof.
  apply (parse_uid_envelope (Py.chars "12 ") (Py.chars "4821") []).
  - cbn. repeat constructor; discriminate.
  - discriminate.
  - cbn. repeat constructor.
Defined.

Lemma get_folders_reads_listing_witness :
  let st := constructed no_news in
  fst (get_folders env st) =
    inr (List.filter
           (fun folder =>
              re_search_I env (include (self st)) folder &&
              negb (re_search_I env (exclude (self st)) folder))
           (map canonical_line two_lines)) /\
  self (snd (get_folders env st)) = self st.
Proof.
  intros st.
  apply (get_folders_reads_listing env st "OK" two_lines).
  - vm_compute. reflexivity.
  - unfold two_lines, line_ok, no_newline. cbn.
    repeat constructor; discriminate.
Defined.

Lemma canonical_quoted_name_witness :
  canonical (Py.str ["."%char],
             Py.str (Py.dquote :: Py.chars "INBOX.Lists" ++ [Py.dquote])) =
    Py.str (map (fun a => if Ascii.eqb a "."%char then "/"%char else a)
              (Py.chars "INBOX.Lists")) /\
  canonical (Py.str ["/"%char],
             Py.str (Py.dquote :: Py.chars "INBOX.Lists" ++ [Py.dquote])) =
    Py.str (Py.chars "INBOX.Lists").
Proof.
  apply (canonical_quoted_name "."%char (Py.chars "INBOX.Lists")).
  cbn. repeat constructor; discriminate.
Defined.

Lemma listing_error_ends_check_witness :
  let st := constructed listing_lost in
  fst (check env 1 1 st) = inl TypeError /\
  self (snd (check env 1 1 st)) = self st /\
  since st (snd (check env 1 1 st)) =
    [ev_imap (imap_conn (imap (self st))) c_list (inr ("OK", [INone]))] /\
  (TypeError = TypeError \/ TypeError = AttributeError \/
   TypeError = IndexError).
Proof.
  intros st.
  apply (listing_error_ends_check env 1 1 st ("OK", [INone]) TypeError).
  - vm_compute. reflexivity.
  - reflexivity.
Defined.

Lemma parse_headers_pairs_witness :
  let data := [IPair "11 (BODY[HEADER] {13}" "Subject: new"; IStr ")"] in
  parse_headers data = inr (map message_from_string (header_texts data)) /\
  (length (header_texts data) <= length data)%nat.
Proof.
  intros data. apply (parse_headers_pairs data).
  constructor; [left; by do 2 eexists|].
  constructor; [by right|constructor].
Defined.

Lemma constructor_bad_pattern_witness :
  let built := __init__ env 1 "mail.example.org" "alice" "secret" None false
                 "*" "^$" false two_marks in
  (exists e, fst built = inl e) /\
  Forall (fun ev => session_setup ev = true) (trace (snd built)).
Proof.
  apply (constructor_bad_pattern env 1 "mail.example.org" "alice" "secret"
           None false "*" "^$" false two_marks).
  vm_compute. reflexivity.
Defined.

(** The handler of [Scenario.gss_session_lost] has context 7; its check,
    which reconnects, creates no other. *)
Lemma security_context_made_once_witness :
  krb_inits (since gss_constructed (snd (check env 5 1 gss_constructed)))
    = O /\
  gss_vc (self (snd (check env 5 1 gss_constructed))) = Some 7%nat.
Proof.
  apply (proj2 (security_context_made_once env 5 1 gss_constructed) 7%nat).
  vm_compute. reflexivity.
Defined.
